(** * Connection lifecycle of the Gmail extension popup

    A shallow embedding of the popup script of the extension (the connect
    and logout click handlers with the retrying handshake, and what the
    popup does when it opens), with [verifyEmail] of the API module, and
    the properties of the connection lifecycle.

    The script is asynchronous JavaScript.  Its handlers are embedded as
    programs of a small free monad: a program is a tree of synchronous
    operations on the page and the extension storage, and of calls that
    suspend the handler until the platform or the network answers.  A
    sequential interpreter runs one handler against an oracle that answers
    the calls; a scheduler interleaves the pending handlers of the page.

    What the embedding leaves out.  The extension storage never fails: a
    [set], [get] or [remove] takes effect when it is issued and its promise
    settles; this covers the awaited write of the token, which in the
    script stands before the [try] of its callback, so that nothing is
    said here of a write that is rejected.  JSON bodies are objects whose
    fields are strings or booleans, and a token is a string.
    [chrome.identity.getAuthToken] and [chrome.tabs.create] always call
    their callback ([getAuthToken] with a token or with
    [chrome.runtime.lastError] set).  Of the page only the
    caption, the [disabled] flag and the [display] of the connect button
    and the [display] of the logout button are kept.  The unused global
    [currentToken] is dropped. *)

From stdpp Require Import gmap strings list fin_maps pretty.

(** ** Data *)

(** The JSON values the script reads and writes: booleans and strings. *)
Inductive value : Type :=
| VBool (b : bool)
| VStr (s : string).

(** A plain JavaScript object with string keys ([chrome.storage.local],
    a parsed JSON body, an object literal). *)
Abbreviation obj := (gmap string value).

(** [!x] is [negb (truthy x)]; a missing property reads as [undefined]. *)
Definition truthy (x : option value) : bool :=
  match x with
  | None => false
  | Some (VBool b) => b
  | Some (VStr s) => negb (String.eqb s "")
  end.

(** Template-literal conversion of a property value. *)
Definition to_string (x : option value) : string :=
  match x with
  | None => "undefined"
  | Some (VBool true) => "true"
  | Some (VBool false) => "false"
  | Some (VStr s) => s
  end.

(** [x || d] inside a template literal. *)
Definition or_default (x : option value) (d : string) : string :=
  if truthy x then to_string x else d.

(** An object literal: a property whose value is [undefined] is dropped
    when the object is serialised ([JSON.stringify], [chrome.storage]). *)
Fixpoint literal (fields : list (string * option value)) : obj :=
  match fields with
  | [] => ∅
  | (k, Some v) :: rest => <[k := v]> (literal rest)
  | (_, None) :: rest => literal rest
  end.

(** A thrown [Error]; only its message is observed. *)
Record error : Type := Error { message : string }.

Inductive http_method : Type := GET | POST.

Record request : Type := Request {
  url : string;
  method : http_method;
  headers : list (string * string);
  body : option obj
}.

(** What [response.json()] gives: a parse failure or an object. *)
Inductive json_body : Type :=
| JsonBad (why : string)
| JsonOk (o : obj).

Record response : Type := Response {
  ok : bool;
  payload : json_body
}.

(** [fetch] rejects (network failure) or resolves with a response. *)
Inductive fetch_result : Type :=
| NetworkError (why : string)
| Resolved (r : response).

(** [chrome.identity.getAuthToken]: the callback sees a token, or
    [chrome.runtime.lastError] is set. *)
Inductive auth_result : Type :=
| AuthToken (token : string)
| AuthLastError (why : string).

(** [chrome.identity.removeCachedAuthToken]: the callback runs (with or
    without [lastError]), or the call itself throws and the callback never
    runs. *)
Inductive revoke_result : Type :=
| Revoked
| RevokeLastError (why : string)
| RevokeThrows (why : string).

(** ** The page *)

Inductive caption : Type :=
| ConnectYourGmail
| Connecting
| ConnectedMark
| ErrorTryAgain.

Inductive display : Type := DisplayDefault | DisplayNone | DisplayBlock.

(** [connectGmailButton] and [logoutButton]. *)
Record page : Type := Page {
  connect_caption : caption;
  connect_disabled : bool;
  connect_display : display;
  logout_display : display
}.

Inductive console_level : Type := LevelLog | LevelError.

Inductive console_arg : Type :=
| ArgStr (s : string)
| ArgErr (e : error)
| ArgObj (o : obj).

(** What a handler is seen to do, in the order it happens. *)
Inductive event : Type :=
| EvStorageSet (items : obj)
| EvStorageGet (keys : list string)
| EvStorageRemove (keys : list string)
| EvConsole (level : console_level) (args : list console_arg)
| EvGetAuthToken (interactive : bool)
| EvAuthResult (r : auth_result)
| EvRemoveCachedAuthToken (token : option value)
| EvRevokeResult (r : revoke_result)
| EvFetch (req : request)
| EvFetchResult (req : request) (r : fetch_result)
| EvTabsCreate (target : string) (active : bool)
| EvTabCreated (tab : nat)
| EvTabListenerAdded (tab : nat)
| EvTabFocusScheduled (tab : nat) (ms : nat)
| EvTimeout (ms : nat)
| EvUnhandledRejection (e : error).

Record world : Type := World {
  store : obj;
  ui : page
}.

Definition with_store (f : obj → obj) (w : world) : world :=
  {| store := f (store w); ui := ui w |}.

Definition with_ui (f : page → page) (w : world) : world :=
  {| store := store w; ui := f (ui w) |}.

Arguments with_store _ _ /.
Arguments with_ui _ _ /.

(** [chrome.storage.local.get(keys)]: the stored items among [keys]. *)
Definition pick (keys : list string) (m : obj) : obj :=
  filter (λ kv, bool_decide (kv.1 ∈ keys)) m.

(** [chrome.storage.local.remove(keys)]. *)
Definition remove_keys (keys : list string) (m : obj) : obj :=
  foldr delete m keys.

(** [chrome.storage.local.set(items)]: [items] win over stored values. *)
Definition assign (items : obj) (m : obj) : obj := items ∪ m.

Arguments literal : simpl never.
Arguments pick : simpl never.
Arguments remove_keys : simpl never.
Arguments assign : simpl never.

(** ** Programs *)

(** Synchronous operations: the page, the console, the extension storage
    (a storage request takes effect when it is issued; the handler then
    waits for its promise, see [Settle]), and the two registrations that
    the tab callback leaves behind without waiting for them. *)
Inductive op : Type → Type :=
| SetCaption (c : caption) : op unit
| SetDisabled (b : bool) : op unit
| SetConnectDisplay (d : display) : op unit
| SetLogoutDisplay (d : display) : op unit
| Console (level : console_level) (args : list console_arg) : op unit
| StorageSet (items : obj) : op unit
| StorageGet (keys : list string) : op obj
| StorageRemove (keys : list string) : op unit
| TabListener (tab : nat) : op unit
| TabFocusLater (tab : nat) (ms : nat) : op unit.

(** Calls that suspend the handler until the platform, the provider or the
    backend answers. *)
Inductive ext : Type → Type :=
| Settle : ext unit
| GetAuthToken (interactive : bool) : ext auth_result
| RemoveCachedAuthToken (token : option value) : ext revoke_result
| Fetch (req : request) : ext fetch_result
| TabsCreate (target : string) (active : bool) : ext nat
| Timeout (ms : nat) : ext unit.

Inductive prog (A : Type) : Type :=
| Ret (a : A)
| Throw (e : error)
| Do {X : Type} (o : op X) (k : X → prog A)
| Call {X : Type} (c : ext X) (k : X → prog A).

Arguments Ret {A} a.
Arguments Throw {A} e.
Arguments Do {A X} o k.
Arguments Call {A X} c k.

Fixpoint bind {A B : Type} (p : prog A) (f : A → prog B) : prog B :=
  match p with
  | Ret a => f a
  | Throw e => Throw e
  | Do o k => Do o (λ x, bind (k x) f)
  | Call c k => Call c (λ x, bind (k x) f)
  end.

(** [try { p } catch (error) { h error }]. *)
Fixpoint try_catch {A : Type} (p : prog A) (h : error → prog A) : prog A :=
  match p with
  | Ret a => Ret a
  | Throw e => h e
  | Do o k => Do o (λ x, try_catch (k x) h)
  | Call c k => Call c (λ x, try_catch (k x) h)
  end.

#[global] Instance prog_ret : MRet prog := λ A a, Ret a.
#[global] Instance prog_bind : MBind prog := λ A B f p, bind p f.

Definition do_ {X : Type} (o : op X) : prog X := Do o Ret.
Definition call {X : Type} (c : ext X) : prog X := Call c Ret.

(** ** Meaning of operations and calls *)

Definition perform {X : Type} (o : op X) (w : world) : world * X :=
  match o in op X return world * X with
  | SetCaption c =>
      (with_ui (λ u, {| connect_caption := c;
                        connect_disabled := connect_disabled u;
                        connect_display := connect_display u;
                        logout_display := logout_display u |}) w, tt)
  | SetDisabled b =>
      (with_ui (λ u, {| connect_caption := connect_caption u;
                        connect_disabled := b;
                        connect_display := connect_display u;
                        logout_display := logout_display u |}) w, tt)
  | SetConnectDisplay d =>
      (with_ui (λ u, {| connect_caption := connect_caption u;
                        connect_disabled := connect_disabled u;
                        connect_display := d;
                        logout_display := logout_display u |}) w, tt)
  | SetLogoutDisplay d =>
      (with_ui (λ u, {| connect_caption := connect_caption u;
                        connect_disabled := connect_disabled u;
                        connect_display := connect_display u;
                        logout_display := d |}) w, tt)
  | Console _ _ => (w, tt)
  | StorageSet items => (with_store (assign items) w, tt)
  | StorageGet keys => (w, pick keys (store w))
  | StorageRemove keys => (with_store (remove_keys keys) w, tt)
  | TabListener _ => (w, tt)
  | TabFocusLater _ _ => (w, tt)
  end.

Definition observed {X : Type} (o : op X) : list event :=
  match o with
  | SetCaption _ | SetDisabled _ | SetConnectDisplay _ | SetLogoutDisplay _ => []
  | Console level args => [EvConsole level args]
  | StorageSet items => [EvStorageSet items]
  | StorageGet keys => [EvStorageGet keys]
  | StorageRemove keys => [EvStorageRemove keys]
  | TabListener tab => [EvTabListenerAdded tab]
  | TabFocusLater tab ms => [EvTabFocusScheduled tab ms]
  end.

Definition issued {X : Type} (c : ext X) : list event :=
  match c with
  | Settle => []
  | GetAuthToken interactive => [EvGetAuthToken interactive]
  | RemoveCachedAuthToken token => [EvRemoveCachedAuthToken token]
  | Fetch req => [EvFetch req]
  | TabsCreate target active => [EvTabsCreate target active]
  | Timeout ms => [EvTimeout ms]
  end.

Definition answered {X : Type} (c : ext X) : X → list event :=
  match c in ext X return X → list event with
  | Settle => λ _, []
  | GetAuthToken _ => λ r, [EvAuthResult r]
  | RemoveCachedAuthToken _ => λ r, [EvRevokeResult r]
  | Fetch req => λ r, [EvFetchResult req r]
  | TabsCreate _ _ => λ tab, [EvTabCreated tab]
  | Timeout _ => λ _, []
  end.

(** ** One handler at a time *)

(** The environment of a run: the answer to the [n]-th call. *)
Definition answers : Type := ∀ X : Type, ext X → X.
Definition oracle : Type := nat → answers.

Inductive outcome (A : Type) : Type :=
| Returned (a : A)
| Thrown (e : error).

Arguments Returned {A} a.
Arguments Thrown {A} e.

(** The end of a run: the index of the next call, the world and the
    events of the run, and how the handler ended. *)
Record final (A : Type) : Type := Final {
  asked : nat;
  after : world;
  trace : list event;
  result : outcome A
}.

Arguments Final {A} asked after trace result.
Arguments asked {A} f.
Arguments after {A} f.
Arguments trace {A} f.
Arguments result {A} f.

Definition before {A : Type} (evs : list event) (f : final A) : final A :=
  {| asked := asked f; after := after f; trace := evs ++ trace f;
     result := result f |}.

Fixpoint run {A : Type} (env : oracle) (n : nat) (p : prog A) (w : world)
  : final A :=
  match p with
  | Ret a => Final n w [] (Returned a)
  | Throw e => Final n w [] (Thrown e)
  | Do o k =>
      let wx := perform o w in
      before (observed o) (run env n (k wx.2) wx.1)
  | Call c k =>
      let x := env n _ c in
      before (issued c ++ answered c x) (run env (S n) (k x) w)
  end.

(** ** The popup script *)

Definition console_log (args : list console_arg) : prog unit :=
  do_ (Console LevelLog args).
Definition console_error (args : list console_arg) : prog unit :=
  do_ (Console LevelError args).

(** [await chrome.storage.local.set(items)] and its siblings. *)
Definition chrome_storage_local_set (items : obj) : prog unit :=
  do_ (StorageSet items);; call Settle.
Definition chrome_storage_local_get (keys : list string) : prog obj :=
  items ← do_ (StorageGet keys); call Settle;; mret items.
Definition chrome_storage_local_remove (keys : list string) : prog unit :=
  do_ (StorageRemove keys);; call Settle.

(** [await fetch(...)]. *)
Definition fetch (req : request) : prog response :=
  r ← call (Fetch req);
  match r with
  | NetworkError why => Throw (Error why)
  | Resolved resp => mret resp
  end.

(** [await response.json()].  No page or storage operation stands between
    a [fetch] and the [json()] of its response, so the wait for the body
    is not a separate suspension. *)
Definition json (resp : response) : prog obj :=
  match payload resp with
  | JsonBad why => Throw (Error why)
  | JsonOk o => mret o
  end.

Definition json_headers : list (string * string) :=
  [("Content-Type", "application/json")].

Definition userinfo_url : string := "https://www.googleapis.com/oauth2/v2/userinfo".
Definition store_token_url : string := "http://localhost:8000/store-gmail-token".
Definition connect_url : string := "http://localhost:8000/connect-gmail".
Definition logout_url : string := "http://localhost:8000/logout-gmail".

Definition userinfo_request (token : string) : request :=
  {| url := userinfo_url;
     method := GET;
     headers := [("Authorization", "Bearer " +:+ token)];
     body := None |}.

Definition store_token_request (email : option value) (token : string)
  : request :=
  {| url := store_token_url;
     method := POST;
     headers := json_headers;
     body := Some (literal [("email", email); ("token", Some (VStr token))]) |}.

Definition connect_request (email : option value) (token : string) : request :=
  {| url := connect_url;
     method := POST;
     headers := json_headers;
     body := Some (literal [("email", email); ("token", Some (VStr token))]) |}.

Definition logout_request (email : option value) : request :=
  {| url := logout_url;
     method := POST;
     headers := json_headers;
     body := Some (literal [("email", email)]) |}.

Definition setButtonLoading (isLoading : bool) : prog unit :=
  if isLoading then
    do_ (SetCaption Connecting);; do_ (SetDisabled true)
  else
    do_ (SetCaption ConnectYourGmail);; do_ (SetDisabled false).

Section Handshake.
(** [userInfo] and [token] are the variables of the enclosing callback
    that [attemptHandshake] closes over. *)
Variable userInfo : obj.
Variable token : string.
Variables retries delay : nat.

(** One turn of the loop body: [Some] is the [return] inside [try], [None]
    falls out of the [catch] into the next turn. *)
Definition handshake_turn (attempt : nat) : prog (option obj) :=
  try_catch
    (handshakeResponse ← fetch (connect_request (userInfo !! "email") token);
     if negb (ok handshakeResponse) then
       Throw (Error ("Attempt " +:+ pretty attempt +:+ ": Failed to connect Gmail"))
     else
       o ← json handshakeResponse; mret (Some o))
    (λ error,
       console_log [ArgStr ("Attempt " +:+ pretty attempt +:+ " failed:"); ArgErr error];;
       if (attempt =? retries) then
         Throw (Error ("Failed after " +:+ pretty retries +:+ " attempts: "
                       +:+ message error))
       else
         call (Timeout delay);; mret None).

(** [for (let attempt = ...; attempt <= retries; attempt++)], unrolled
    at most [turns] times; the function returns [undefined] ([None]) when
    the loop ends. *)
Fixpoint handshake_loop (turns attempt : nat) : prog (option obj) :=
  match turns with
  | 0 => mret None
  | S turns' =>
      if (attempt <=? retries) then
        r ← handshake_turn attempt;
        match r with
        | Some o => mret (Some o)
        | None => handshake_loop turns' (S attempt)
        end
      else mret None
  end.
End Handshake.

(** [attemptHandshake(retries, delay)]: [retries] turns exhaust the loop
    that starts at [attempt = 1] (see [handshake_loop_fuel]). *)
Definition attemptHandshake (userInfo : obj) (token : string)
    (retries delay : nat) : prog (option obj) :=
  handshake_loop userInfo token retries delay retries 1.

Definition arg_of (x : option obj) : console_arg :=
  match x with
  | Some o => ArgObj o
  | None => ArgStr "undefined"
  end.

Definition connection_items (userInfo : obj) : obj :=
  literal [("isConnected", Some (VBool true)); ("userEmail", userInfo !! "email")].

Arguments connection_items : simpl never.

(** The callback of [chrome.tabs.create].  The [waitForLoad] promise is
    built (its executor registers the listener) and never awaited.  The
    last [chrome.storage.local.get] of the [try] block is only issued
    there: its callback, which logs what it is given, runs when the
    storage answers, after the tab callback has scheduled the focus and
    ended. *)
Definition on_tab_created (userInfo : obj) (token : string) (tab : nat)
  : prog unit :=
  do_ (TabListener tab);;
  reading ← try_catch
    (handshakeResponse ← attemptHandshake userInfo token 3 1000;
     console_log [ArgStr "Connection successful:"; arg_of handshakeResponse];;
     chrome_storage_local_set (connection_items userInfo);;
     console_log [ArgStr "Storage updated with connection status"];;
     result ← do_ (StorageGet ["isConnected"]);
     mret (Some result))
    (λ error,
       console_error [ArgStr "Handshake failed:"; ArgErr error];;
       setButtonLoading false;;
       do_ (SetCaption ErrorTryAgain);;
       mret None);
  do_ (TabFocusLater tab 1500);;
  match reading with
  | Some result =>
      call Settle;;
      console_log [ArgStr "Storage after setting:"; ArgObj result]
  | None => mret tt
  end.

(** The callback of [chrome.identity.getAuthToken]. *)
Definition on_auth_token (r : auth_result) : prog unit :=
  match r with
  | AuthLastError why =>
      console_error [ArgErr (Error why)];;
      setButtonLoading false;;
      do_ (SetCaption ErrorTryAgain)
  | AuthToken token =>
      chrome_storage_local_set (literal [("gmailToken", Some (VStr token))]);;
      try_catch
        (response ← fetch (userinfo_request token);
         userInfo ← json response;
         storeTokenResponseBackend ←
           fetch (store_token_request (userInfo !! "email") token);
         (if negb (ok storeTokenResponseBackend) then
            errorData ← json storeTokenResponseBackend;
            do_ (SetCaption ErrorTryAgain);;
            Throw (Error ("Failed to connect Gmail: "
                          +:+ or_default (errorData !! "detail") "Unknown error"))
          else mret tt);;
         chrome_storage_local_set (connection_items userInfo);;
         do_ (SetCaption ConnectedMark);;
         do_ (SetDisabled true);;
         do_ (SetConnectDisplay DisplayNone);;
         do_ (SetLogoutDisplay DisplayBlock);;
         tab ← call (TabsCreate "https://mail.google.com" true);
         on_tab_created userInfo token tab)
        (λ error,
           console_error [ArgStr "Error:"; ArgErr error];;
           setButtonLoading false;;
           do_ (SetCaption ErrorTryAgain))
  end.

(** The click listener of [connectGmailButton].  The callbacks run after
    the [try] blocks that register them have ended; they are written here
    in the place where the source nests them; with a storage that never
    fails they never throw ([on_auth_token_returns],
    [on_tab_created_returns]), so no [catch] around them is ever entered
    on their behalf. *)
Definition connect_click : prog unit :=
  try_catch
    (setButtonLoading true;;
     r ← call (GetAuthToken true);
     on_auth_token r)
    (λ error,
       console_error [ArgStr "Error:"; ArgErr error];;
       setButtonLoading false;;
       do_ (SetCaption ErrorTryAgain)).

Definition session_keys : list string := ["isConnected"; "userEmail"; "gmailToken"].

(** The callback of [chrome.identity.removeCachedAuthToken]. *)
Definition on_token_removed (userEmail : option value) : prog unit :=
  do_ (SetCaption ConnectYourGmail);;
  do_ (SetDisabled false);;
  do_ (SetConnectDisplay DisplayBlock);;
  do_ (SetLogoutDisplay DisplayNone);;
  try_catch
    (response ← fetch (logout_request userEmail);
     if negb (ok response) then
       errorData ← json response;
       console_error [ArgStr "Logout failed:"; ArgObj errorData]
     else mret tt)
    (λ error, console_error [ArgStr "Failed to notify backend:"; ArgErr error]).

(** The click listener of [logoutButton]. *)
Definition logout_click : prog unit :=
  try_catch
    (items ← chrome_storage_local_get ["userEmail"; "gmailToken"];
     let userEmail := items !! "userEmail" in
     let gmailToken := items !! "gmailToken" in
     if negb (truthy userEmail) then
       console_error [ArgStr "No user email found in storage"]
     else
       chrome_storage_local_remove session_keys;;
       r ← call (RemoveCachedAuthToken gmailToken);
       match r with
       | RevokeThrows why => Throw (Error why)
       | Revoked | RevokeLastError _ => on_token_removed userEmail
       end)
    (λ error, console_error [ArgStr "Logout failed:"; ArgErr error]).

(** When the popup opens: the logout button is created hidden, and the
    stored flag decides what the page shows. *)
Definition fresh_page : page :=
  {| connect_caption := ConnectYourGmail; connect_disabled := false;
     connect_display := DisplayDefault; logout_display := DisplayNone |}.

Definition popup_opened : prog unit :=
  do_ (SetLogoutDisplay DisplayNone);;
  result ← chrome_storage_local_get ["isConnected"; "userEmail"];
  console_log [ArgStr "Initial connection check:"; ArgObj result];;
  if truthy (result !! "isConnected") then
    do_ (SetCaption ConnectedMark);;
    do_ (SetDisabled true);;
    do_ (SetConnectDisplay DisplayNone);;
    do_ (SetLogoutDisplay DisplayBlock)
  else mret tt.

(** ** Several handlers at once *)

(** A handler runs until its first call and is then suspended; the page
    goes on with whatever comes next: the answer to a pending call, or a
    click. *)
Inductive started (A : Type) : Type :=
| Finished (w : world) (evs : list event) (out : outcome A)
| Suspended (w : world) (evs : list event) {X : Type} (c : ext X) (k : X → prog A).

Arguments Finished {A} w evs out.
Arguments Suspended {A} w evs {X} c k.

Definition earlier {A : Type} (evs : list event) (st : started A) : started A :=
  match st with
  | Finished w evs' out => Finished w (evs ++ evs') out
  | Suspended w evs' c k => Suspended w (evs ++ evs') c k
  end.

Fixpoint start {A : Type} (p : prog A) (w : world) : started A :=
  match p with
  | Ret a => Finished w [] (Returned a)
  | Throw e => Finished w [] (Thrown e)
  | Do o k => let wx := perform o w in earlier (observed o) (start (k wx.2) wx.1)
  | Call c k => Suspended w (issued c) c k
  end.

(** A suspended handler: the call it waits for and what it does next. *)
Inductive task : Type :=
| Waiting {X : Type} (c : ext X) (k : X → prog unit).

Record popup : Type := Popup {
  now : world;
  pending : list task;
  seen : list event
}.

Inductive button : Type := ConnectButton | LogoutButton.

Inductive action : Type :=
| Click (b : button)
| Answer (i : nat) (a : answers).

(** The browser hands a click to the listener of a button only when the
    button is enabled and displayed; [logoutButton] is never disabled. *)
Definition clickable (b : button) (u : page) : bool :=
  match b with
  | ConnectButton =>
      negb (connect_disabled u)
      && match connect_display u with DisplayNone => false | _ => true end
  | LogoutButton =>
      match logout_display u with DisplayNone => false | _ => true end
  end.

Definition listener (b : button) : prog unit :=
  match b with
  | ConnectButton => connect_click
  | LogoutButton => logout_click
  end.

(** The page after a handler has run up to its next call (or to its end;
    a handler that ends by throwing leaves an unhandled rejection). *)
Definition settle (st : started unit) (others : list task) (seen_so_far : list event)
  : popup :=
  match st with
  | Finished w evs (Returned _) =>
      {| now := w; pending := others; seen := seen_so_far ++ evs |}
  | Finished w evs (Thrown e) =>
      {| now := w; pending := others;
         seen := seen_so_far ++ evs ++ [EvUnhandledRejection e] |}
  | Suspended w evs c k =>
      {| now := w; pending := others ++ [Waiting c k]; seen := seen_so_far ++ evs |}
  end.

(** One step of the page; [None] when the step cannot happen (the click is
    not delivered, no such pending call). *)
Definition step (s : popup) (a : action) : option popup :=
  match a with
  | Click b =>
      if clickable b (ui (now s)) then
        Some (settle (start (listener b) (now s)) (pending s) (seen s))
      else None
  | Answer i a =>
      match pending s !! i with
      | Some (Waiting c k) =>
          let x := a _ c in
          Some (settle (start (k x) (now s)) (delete i (pending s))
                  (seen s ++ answered c x))
      | None => None
      end
  end.

Fixpoint steps (s : popup) (actions : list action) : option popup :=
  match actions with
  | [] => Some s
  | a :: rest =>
      match step s a with
      | Some s' => steps s' rest
      | None => None
      end
  end.

Definition idle (w : world) : popup := {| now := w; pending := []; seen := [] |}.

(** The schedule that answers the only pending call [m] times, with the
    answers of an oracle from its [n]-th on. *)
Definition solo (env : oracle) (n m : nat) : list action :=
  map (λ k, Answer 0 (env k)) (seq n m).

Definition rejection {A : Type} (out : outcome A) : list event :=
  match out with
  | Returned _ => []
  | Thrown e => [EvUnhandledRejection e]
  end.

Definition is_logout_click (a : action) : bool :=
  match a with
  | Click LogoutButton => true
  | _ => false
  end.

(** Run from world [w], the program never waits for a call while the
    connect button is enabled. *)
Fixpoint guarded {A : Type} (p : prog A) (w : world) : Prop :=
  match p with
  | Ret _ | Throw _ => True
  | Do o k => let wx := perform o w in guarded (k wx.2) wx.1
  | Call c k => connect_disabled (ui w) = true ∧ ∀ x, guarded (k x) w
  end.

(** ** Reading a trace *)

(** The events of a trace that [f] picks, in order. *)
Fixpoint collect {A : Type} (f : event → option A) (tr : list event) : list A :=
  match tr with
  | [] => []
  | ev :: rest =>
      match f ev with
      | Some a => a :: collect f rest
      | None => collect f rest
      end
  end.

(** The requests sent to [target], and the answers they got, in order. *)
Definition requests_to (target : string) (tr : list event) : list request :=
  collect (λ ev, match ev with
              | EvFetch req => if String.eqb (url req) target then Some req else None
              | _ => None
              end) tr.

Definition results_from (target : string) (tr : list event)
  : list fetch_result :=
  collect (λ ev, match ev with
              | EvFetchResult req r =>
                  if String.eqb (url req) target then Some r else None
              | _ => None
              end) tr.

(** The storage writes and removals of a trace. *)
Definition writes (tr : list event) : list obj :=
  collect (λ ev, match ev with EvStorageSet items => Some items | _ => None end) tr.

Definition removals (tr : list event) : list (list string) :=
  collect (λ ev, match ev with EvStorageRemove keys => Some keys | _ => None end) tr.

(** What was written with [console.error]. *)
Definition errors_logged (tr : list event) : list (list console_arg) :=
  collect (λ ev, match ev with
                 | EvConsole LevelError args => Some args
                 | _ => None
                 end) tr.

(** The token handed to the callback of [getAuthToken], if any. *)
Definition acquired (tr : list event) : option string :=
  head (collect (λ ev, match ev with
                    | EvAuthResult (AuthToken token) => Some token
                    | _ => None
                    end) tr).

(** A [fetch] whose promise resolved with a 2xx status. *)
Definition accepted (r : fetch_result) : bool :=
  match r with
  | NetworkError _ => false
  | Resolved resp => ok resp
  end.

(** The body that a handshake attempt returns, when it returns one. *)
Definition handshake_ok (r : fetch_result) : option obj :=
  match r with
  | NetworkError _ => None
  | Resolved resp =>
      if ok resp then
        match payload resp with JsonOk o => Some o | JsonBad _ => None end
      else None
  end.

(** The error that turn [attempt] of [attemptHandshake] catches when the
    call is answered by [r]. *)
Definition attempt_error (attempt : nat) (r : fetch_result) : option error :=
  match r with
  | NetworkError why => Some (Error why)
  | Resolved resp =>
      if ok resp then
        match payload resp with
        | JsonOk _ => None
        | JsonBad why => Some (Error why)
        end
      else Some (Error ("Attempt " +:+ pretty attempt +:+ ": Failed to connect Gmail"))
  end.

(** The rhythm of the handshake: attempts and the waits between them. *)
Inductive beat : Type := Attempt | Wait (ms : nat).

Definition beats (tr : list event) : list beat :=
  collect (λ ev, match ev with
              | EvFetch req =>
                  if String.eqb (url req) connect_url then Some Attempt else None
              | EvTimeout ms => Some (Wait ms)
              | _ => None
              end) tr.

(** [calls] attempts with a wait of [delay] between consecutive ones. *)
Fixpoint rounds (calls delay : nat) : list beat :=
  match calls with
  | 0 => []
  | 1 => [Attempt]
  | S calls' => Attempt :: Wait delay :: rounds calls' delay
  end.

(** The traces of the handshake loop from turn [attempt] on. *)
Inductive handshake_run (req : request) (retries delay : nat)
  : nat → list event → outcome (option obj) → Prop :=
| run_accepted attempt o :
    attempt ≤ retries →
    handshake_run req retries delay attempt
      [EvFetch req; EvFetchResult req (Resolved (Response true (JsonOk o)))]
      (Returned (Some o))
| run_exhausted r e :
    attempt_error retries r = Some e →
    handshake_run req retries delay retries
      [EvFetch req; EvFetchResult req r;
       EvConsole LevelLog
         [ArgStr ("Attempt " +:+ pretty retries +:+ " failed:"); ArgErr e]]
      (Thrown (Error ("Failed after " +:+ pretty retries +:+ " attempts: "
                      +:+ message e)))
| run_retried attempt r e tr out :
    attempt < retries →
    attempt_error attempt r = Some e →
    handshake_run req retries delay (S attempt) tr out →
    handshake_run req retries delay attempt
      (EvFetch req :: EvFetchResult req r
       :: EvConsole LevelLog
            [ArgStr ("Attempt " +:+ pretty attempt +:+ " failed:"); ArgErr e]
       :: EvTimeout delay :: tr)
      out.

(** The events of the handshake: [attemptHandshake] does nothing else. *)
Definition handshake_event (req : request) (delay : nat) (ev : event) : Prop :=
  match ev with
  | EvFetch req' | EvFetchResult req' _ => req' = req
  | EvConsole LevelLog _ => True
  | EvTimeout ms => ms = delay
  | _ => False
  end.

(** The parsed body of the answer of the identity endpoint, if any. *)
Definition resolved (tr : list event) : option obj :=
  head (collect (λ ev, match ev with
                    | EvFetchResult req (Resolved resp) =>
                        if String.eqb (url req) userinfo_url then
                          match payload resp with
                          | JsonOk o => Some o
                          | JsonBad _ => None
                          end
                        else None
                    | _ => None
                    end) tr).

Definition token_prompts (tr : list event) : nat :=
  length (collect (λ ev, match ev with
                      | EvGetAuthToken _ => Some ()
                      | _ => None
                      end) tr).

(** [storeToken] was answered with a 2xx status. *)
Definition registered (tr : list event) : bool :=
  existsb accepted (results_from store_token_url tr).

(** [storeToken] was called and failed: the request was rejected by the
    network or answered with another status. *)
Definition store_token_failed (tr : list event) : bool :=
  existsb (λ r, negb (accepted r)) (results_from store_token_url tr).

(** What is left in a logout trace after the provider has been asked to
    revoke: answers, the backend notification and logged errors. *)
Definition logout_aftermath (ev : event) : bool :=
  match ev with
  | EvRevokeResult _ | EvConsole LevelError _ => true
  | EvFetch req | EvFetchResult req _ => String.eqb (url req) logout_url
  | _ => false
  end.

(** The two handlers as a connect attempt and a disconnect run against an
    environment. *)
Definition connect (env : oracle) (n : nat) (w : world) : final unit :=
  run env n connect_click w.

Definition disconnect (env : oracle) (n : nat) (w : world) : final unit :=
  run env n logout_click w.

(** The page after a failed attempt: [setButtonLoading(false)] and the
    error caption. *)
Definition error_page (u : page) : page :=
  {| connect_caption := ErrorTryAgain; connect_disabled := false;
     connect_display := connect_display u; logout_display := logout_display u |}.

(** ** Environments for the examples *)

Definition reply (auth : auth_result) (net : request → fetch_result)
    (revoke : revoke_result) : answers :=
  λ X c,
    match c in ext X return X with
    | Settle => tt
    | GetAuthToken _ => auth
    | RemoveCachedAuthToken _ => revoke
    | Fetch req => net req
    | TabsCreate _ _ => 7
    | Timeout _ => tt
    end.

Definition status (success : bool) (o : obj) : fetch_result :=
  Resolved {| ok := success; payload := JsonOk o |}.

Definition example_user : obj := {["email" := VStr "user@example.com"]}.

(** The identity endpoint knows the user; [storeToken] and the handshake
    are answered as given, anything else with an empty 2xx. *)
Definition network (store_token handshake : fetch_result) (req : request)
  : fetch_result :=
  if String.eqb (url req) userinfo_url then status true example_user
  else if String.eqb (url req) store_token_url then store_token
  else if String.eqb (url req) connect_url then handshake
  else status true ∅.

Definition empty_world : world := {| store := ∅; ui := fresh_page |}.

(** A write of the credential alone, and a write of the connection flag
    with the account identity (left out when the identity endpoint gave no
    email). *)
Definition token_alone (items : obj) : Prop :=
  dom items = ({["gmailToken"]} : gset string).

Definition connection_flags (items : obj) : Prop :=
  dom items = ({["isConnected"; "userEmail"]} : gset string)
  ∨ dom items = ({["isConnected"]} : gset string).

(** At most one handler is suspended, and while it is the connect button
    is disabled, now and after any answer. *)
Definition calm (s : popup) : Prop :=
  match pending s with
  | [] => True
  | [Waiting c k] =>
      connect_disabled (ui (now s)) = true ∧ ∀ x, guarded (k x) (now s)
  | _ => False
  end.

(** The user is known, [storeToken] is accepted, every handshake is
    refused. *)
Definition handshake_down : oracle :=
  λ _, reply (AuthToken "tok_abc") (network (status true ∅) (status false ∅)) Revoked.

(** The identity endpoint cannot be reached. *)
Definition identity_down : oracle :=
  λ _, reply (AuthToken "tok_abc") (λ _, NetworkError "Failed to fetch") Revoked.

(** [storeToken] answers 400 with a detail. *)
Definition token_rejected : oracle :=
  λ _, reply (AuthToken "tok_abc")
         (network (status false {["detail" := VStr "bad token"]}) (status true ∅))
         Revoked.

(** Everything succeeds. *)
Definition all_well : answers :=
  reply (AuthToken "tok_abc")
    (network (status true ∅) (status true {["ack" := VBool true]})) Revoked.

(** The first handshake call (the seventh call of the attempt) is refused,
    the second is acknowledged. *)
Definition second_try : oracle :=
  λ n, reply (AuthToken "tok_abc")
         (network (status true ∅)
            (if n <? 7 then status false ∅ else status true {["ack" := VBool true]}))
         Revoked.

(** The provider throws on revocation. *)
Definition revoke_throws : oracle :=
  λ _, reply (AuthToken "tok_abc") (network (status true ∅) (status true ∅))
         (RevokeThrows "Invalid token").

Definition connected_world : world :=
  {| store := {["isConnected" := VBool true;
                "userEmail" := VStr "user@example.com";
                "gmailToken" := VStr "tok_abc"]};
     ui := {| connect_caption := ConnectedMark; connect_disabled := true;
              connect_display := DisplayNone; logout_display := DisplayBlock |} |}.

(** The page right after a click on the connect button. *)
Definition after_first_click : popup :=
  settle (start connect_click empty_world) [] [].

(** A connect attempt is taken up to its first handshake call; the user
    then clicks logout, the logout runs up to its backend notification, and
    the user clicks connect again. *)
Definition up_to_handshake : list action :=
  Click ConnectButton :: replicate 6 (Answer 0 all_well).

Definition race : list action :=
  up_to_handshake
  ++ [Click LogoutButton; Answer 1 all_well; Answer 1 all_well; Answer 1 all_well;
      Click ConnectButton].

(** The three session keys of an object, in the order [isConnected],
    [userEmail], [gmailToken]. *)
Definition session_flags (m : obj) : option value * option value * option value :=
  (m !! "isConnected", m !! "userEmail", m !! "gmailToken").

(** What can be told of a page without looking into its suspended
    handlers. *)
Record glimpse : Type := Glimpse {
  suspended : nat;
  prompts : nat;
  handshakes_sent : nat;
  handshakes_answered : nat;
  logouts_sent : nat;
  cleared : list (list string);
  flags : option value * option value * option value;
  shown : page
}.

Definition glimpse_of (s : popup) : glimpse :=
  {| suspended := length (pending s);
     prompts := token_prompts (seen s);
     handshakes_sent := length (requests_to connect_url (seen s));
     handshakes_answered := length (results_from connect_url (seen s));
     logouts_sent := length (requests_to logout_url (seen s));
     cleared := removals (seen s);
     flags := session_flags (store (now s));
     shown := ui (now s) |}.

(** ** More of the trace and of the page *)

(** Some handshake call was answered with a 2xx status and a body. *)
Definition handshake_succeeded (tr : list event) : bool :=
  existsb (λ r, match handshake_ok r with Some _ => true | None => false end)
    (results_from connect_url tr).

(** Every request of a trace, whatever its target. *)
Definition requests (tr : list event) : list request :=
  collect (λ ev, match ev with EvFetch req => Some req | _ => None end) tr.

(** The tabs that were asked for, the tabs that were created and the
    focus changes that were scheduled. *)
Definition tabs_opened (tr : list event) : list (string * bool) :=
  collect (λ ev, match ev with
                 | EvTabsCreate target active => Some (target, active)
                 | _ => None
                 end) tr.

Definition tabs_created (tr : list event) : list nat :=
  collect (λ ev, match ev with EvTabCreated tab => Some tab | _ => None end) tr.

Definition focus_scheduled (tr : list event) : list (nat * nat) :=
  collect (λ ev, match ev with
                 | EvTabFocusScheduled tab ms => Some (tab, ms)
                 | _ => None
                 end) tr.

(** The tokens the provider was asked to forget, and whether the call
    threw. *)
Definition revocations (tr : list event) : list (option value) :=
  collect (λ ev, match ev with
                 | EvRemoveCachedAuthToken token => Some token
                 | _ => None
                 end) tr.

Definition provider_threw (tr : list event) : bool :=
  existsb (λ r, match r with RevokeThrows _ => true | _ => false end)
    (collect (λ ev, match ev with EvRevokeResult r => Some r | _ => None end) tr).

(** The handlers that ended by throwing. *)
Definition rejections (tr : list event) : list error :=
  collect (λ ev, match ev with EvUnhandledRejection e => Some e | _ => None end) tr.

(** The email of the answer of the identity endpoint is usable. *)
Definition identified (tr : list event) : bool :=
  match resolved tr with
  | Some userInfo => truthy (userInfo !! "email")
  | None => false
  end.

(** The page of a connected account, the page a logout leaves, and a page
    with the logout button hidden. *)
Definition connected_page : page :=
  {| connect_caption := ConnectedMark; connect_disabled := true;
     connect_display := DisplayNone; logout_display := DisplayBlock |}.

Definition disconnected_page : page :=
  {| connect_caption := ConnectYourGmail; connect_disabled := false;
     connect_display := DisplayBlock; logout_display := DisplayNone |}.

Definition logout_hidden (u : page) : page :=
  {| connect_caption := connect_caption u; connect_disabled := connect_disabled u;
     connect_display := connect_display u; logout_display := DisplayNone |}.

(** The popup opens on a page [u] and on the store of [w]. *)
Definition reopened (env : oracle) (n : nat) (u : page) (w : world) : final unit :=
  run env n popup_opened {| store := store w; ui := u |}.

(** Every operation of a program, on every path, satisfies [P]. *)
Fixpoint every_op {A : Type} (P : ∀ X : Type, op X → Prop) (p : prog A) : Prop :=
  match p with
  | Ret _ | Throw _ => True
  | Do o k => P _ o ∧ ∀ x, every_op P (k x)
  | Call c k => ∀ x, every_op P (k x)
  end.

(** A storage request that stays within the three session keys. *)
Definition session_only {X : Type} (o : op X) : Prop :=
  match o with
  | StorageSet items => ∀ k, k ∉ session_keys → items !! k = None
  | StorageRemove keys => keys ⊆ session_keys
  | _ => True
  end.

(** No path of the program ends by throwing. *)
Fixpoint catches {A : Type} (p : prog A) : Prop :=
  match p with
  | Ret _ => True
  | Throw _ => False
  | Do o k => ∀ x, catches (k x)
  | Call c k => ∀ x, catches (k x)
  end.

(** Two stores that agree on every key but the three session keys. *)
Definition same_outside (m m' : obj) : Prop :=
  ∀ k, k ∉ session_keys → m' !! k = m !! k.

(** Every suspended handler of the page keeps to the session keys; none
    of them ends by throwing. *)
Definition contained (s : popup) : Prop :=
  Forall (λ t, match t with
               | Waiting c k => ∀ x, every_op (@session_only) (k x)
               end) (pending s).

Definition caught (s : popup) : Prop :=
  Forall (λ t, match t with Waiting c k => ∀ x, catches (k x) end) (pending s).

(** The user refuses the consent prompt. *)
Definition prompt_refused : oracle :=
  λ _, reply (AuthLastError "The user did not approve access.")
         (network (status true ∅) (status true ∅)) Revoked.

(** Every request is answered with an empty 2xx body: the identity
    endpoint names no email. *)
Definition anonymous : oracle :=
  λ _, reply (AuthToken "tok_abc") (λ _, status true ∅) Revoked.

(** A store that also holds a key of another part of the extension; a
    logout on it with every call answered, and the page it ends in. *)
Definition verified_world : world :=
  {| store := <["verifiedEmail" := VStr "user@example.com"]> (store connected_world);
     ui := ui connected_world |}.

Definition full_logout : list action :=
  Click LogoutButton :: replicate 4 (Answer 0 all_well).

Definition logged_out : popup :=
  default (idle verified_world) (steps (idle verified_world) full_logout).

(** A logout in which the provider call throws, and the page it ends
    in. *)
Definition refused_logout : list action :=
  Click LogoutButton :: replicate 3 (Answer 0 (revoke_throws 0)).

Definition after_refused_logout : popup :=
  default (idle connected_world) (steps (idle connected_world) refused_logout).

Definition is_connect_click (a : action) : bool :=
  match a with
  | Click ConnectButton => true
  | _ => false
  end.

(** The events of a trace that [p] picks, in the order of the trace. *)
Definition story (p : event → bool) (tr : list event) : list event :=
  collect (λ ev, if p ev then Some ev else None) tr.

(** The acquisition of the token, the storage writes and removals, and
    the answers to [storeToken] and to the handshake. *)
Definition write_milestone (ev : event) : bool :=
  match ev with
  | EvAuthResult (AuthToken _) | EvStorageSet _ | EvStorageRemove _ => true
  | EvFetchResult req _ =>
      String.eqb (url req) store_token_url || String.eqb (url req) connect_url
  | _ => false
  end.

(** The answers to [storeToken] and to the handshake, and what happens to
    the tab. *)
Definition tab_milestone (ev : event) : bool :=
  match ev with
  | EvTabsCreate _ _ | EvTabCreated _ | EvTabFocusScheduled _ _ => true
  | EvFetchResult req _ =>
      String.eqb (url req) store_token_url || String.eqb (url req) connect_url
  | _ => false
  end.

(** ** The API module *)

Definition API_BASE_URL : string := "YOUR_BACKEND_URL".

Definition verify_email_request (email : option value) : request :=
  {| url := API_BASE_URL +:+ "/verify-email";
     method := POST;
     headers := json_headers;
     body := Some (literal [("email", email)]) |}.

(** [verifyEmail(email)]: the parsed body of the answer, whatever its
    status; a failure is logged and thrown again. *)
Definition verifyEmail (email : option value) : prog obj :=
  try_catch
    (response ← fetch (verify_email_request email);
     json response)
    (λ error,
       console_error [ArgStr "Error verifying email:"; ArgErr error];;
       Throw error).

(** ** Laws of the interpreter *)

Lemma collect_app {A : Type} (f : event → option A) tr1 tr2 :
  collect f (tr1 ++ tr2) = collect f tr1 ++ collect f tr2.
Proof.
  induction tr1 as [|ev tr1 IH]; simpl; [done|].
  destruct (f ev); simpl; by rewrite IH.
Qed.


Lemma run_bind {A B : Type} env (p : prog A) (f : A → prog B) n w :
  run env n (bind p f) w =
  let r := run env n p w in
  match result r with
  | Returned a => before (trace r) (run env (asked r) (f a) (after r))
  | Thrown e => Final (asked r) (after r) (trace r) (Thrown e)
  end.
Proof.
  revert n w. induction p as [a|e|X o k IH|X c k IH]; intros n w; simpl.
  - by destruct (run env n (f a) w).
  - done.
  - rewrite IH. simpl. destruct (result _); [|done].
    unfold before; simpl. by rewrite app_assoc.
  - rewrite IH. simpl. destruct (result _); [|done].
    unfold before; simpl. by rewrite !app_assoc.
Qed.

Lemma run_try_catch {A : Type} env (p : prog A) (h : error → prog A) n w :
  run env n (try_catch p h) w =
  let r := run env n p w in
  match result r with
  | Returned a => r
  | Thrown e => before (trace r) (run env (asked r) (h e) (after r))
  end.
Proof.
  revert n w. induction p as [a|e|X o k IH|X c k IH]; intros n w; simpl.
  - done.
  - by destruct (run env n (h e) w).
  - rewrite IH. simpl. destruct (result _); [done|].
    unfold before; simpl. by rewrite app_assoc.
  - rewrite IH. simpl. destruct (result _); [done|].
    unfold before; simpl. by rewrite !app_assoc.
Qed.

(** Running a handler alone is running it to its first call and going on
    from there with the answer of the oracle. *)
Lemma run_start {A : Type} env (p : prog A) n w :
  run env n p w =
  match start p w with
  | Finished w' evs out => Final n w' evs out
  | Suspended w' evs c k =>
      before (evs ++ answered c (env n _ c)) (run env (S n) (k (env n _ c)) w')
  end.
Proof.
  revert n w. induction p as [a|e|X o k IH|X c k IH]; intros n w; simpl;
    try done.
  rewrite IH. destruct (start _ _); simpl; [done|].
  unfold before; simpl. by rewrite !app_assoc.
Qed.

Lemma settle_earlier evs st others seen0 :
  settle (earlier evs st) others seen0 = settle st others (seen0 ++ evs).
Proof. destruct st as [w evs' [|]|]; simpl; by rewrite !app_assoc. Qed.

(** The page agrees with the interpreter: a handler that is alone on the
    page and is answered by the oracle ends in the world and with the
    events of its run. *)
Lemma solo_schedule_is_run env (p : prog unit) n w seen0 :
  let f := run env n p w in
  steps (settle (start p w) [] seen0) (solo env n (asked f - n))
  = Some {| now := after f; pending := [];
            seen := seen0 ++ trace f ++ rejection (result f) |}
  ∧ n ≤ asked f.
Proof.
  revert n w seen0.
  induction p as [a|e|X o k IH|X c k IH]; intros n w seen0; simpl.
  - rewrite Nat.sub_diag. simpl. by rewrite !app_nil_r.
  - by rewrite Nat.sub_diag.
  - rewrite settle_earlier.
    destruct (IH (perform o w).2 n (perform o w).1 (seen0 ++ observed o))
      as [-> Hle].
    split; [|done]. by rewrite <- !app_assoc.
  - destruct (IH (env n _ c) (S n) w
                ((seen0 ++ issued c) ++ answered c (env n _ c))) as [Hrun Hle].
    split; [|lia].
    replace (asked (run env (S n) (k (env n X c)) w) - n)
      with (S (asked (run env (S n) (k (env n X c)) w) - S n)) by lia.
    unfold solo in *. simpl. rewrite Hrun. by rewrite <- !app_assoc.
Qed.

(** ** The storage *)

Lemma pick_lookup keys (m : obj) k :
  k ∈ keys → pick keys m !! k = m !! k.
Proof.
  intros Hin. unfold pick. rewrite map_lookup_filter.
  destruct (m !! k) as [v|]; simpl; [|done].
  rewrite option_guard_True; [done|]. simpl. by apply bool_decide_pack.
Qed.

Lemma remove_session_keys (m : obj) k :
  remove_keys session_keys m !! k =
  if bool_decide (k ∈ session_keys) then None else m !! k.
Proof.
  unfold remove_keys, session_keys. cbn [foldr].
  case_bool_decide as Hin.
  - apply list_elem_of_In in Hin. simpl in Hin.
    destruct Hin as [<-|[<-|[<-|[]]]].
    + by rewrite lookup_delete_eq.
    + rewrite lookup_delete_ne by done. by rewrite lookup_delete_eq.
    + rewrite !lookup_delete_ne by done. by rewrite lookup_delete_eq.
  - rewrite !lookup_delete_ne; [done|intros Heq; apply Hin; subst k; set_solver..].
Qed.

Lemma assign_token token (m : obj) :
  assign (literal [("gmailToken", Some (VStr token))]) m
  = <["gmailToken" := VStr token]> m.
Proof.
  unfold assign, literal. rewrite <- insert_union_l. by rewrite (left_id_L ∅ (∪)).
Qed.

Lemma run_try_catch_returns {A : Type} env (p : prog A) h n w a :
  result (run env n p w) = Returned a →
  run env n (try_catch p h) w = run env n p w.
Proof. intros Hret. rewrite run_try_catch. simpl. by rewrite Hret. Qed.

(** Membership in an explicit list, case by case. *)
Ltac in_cases H :=
  apply list_elem_of_In in H; simpl in H;
  repeat (destruct H as [H|H]; [try discriminate H|]);
  try contradiction.

Ltac readers :=
  unfold registered, store_token_failed, writes, removals, acquired, resolved,
    token_prompts, requests_to, results_from, beats in *.

(** ** The retrying handshake *)

(** [retries] turns are all the loop can use from [attempt = 1]: more
    turns change nothing. *)
Lemma handshake_loop_fuel userInfo token retries delay turns attempt :
  S retries - attempt ≤ turns →
  handshake_loop userInfo token retries delay turns attempt
  = handshake_loop userInfo token retries delay (S retries - attempt) attempt.
Proof.
  revert attempt. induction turns as [|turns IH]; intros attempt Hle.
  - by replace (S retries - attempt) with 0 by lia.
  - simpl. destruct (Nat.leb_spec attempt retries) as [Hin|Hout].
    + replace (S retries - attempt) with (S (S retries - S attempt)) by lia.
      simpl. destruct (Nat.leb_spec attempt retries); [|lia].
      by rewrite IH by lia.
    + by replace (S retries - attempt) with 0 by lia.
Qed.

Lemma attempt_error_not_ok attempt r e :
  attempt_error attempt r = Some e → handshake_ok r = None.
Proof. by destruct r as [|[[] []]]. Qed.

Section HandshakeFacts.
Variable env : oracle.
Variable userInfo : obj.
Variable token : string.
Variables retries delay : nat.

Let req := connect_request (userInfo !! "email") token.

(** Every run of the loop is a word of the grammar, and the world is as
    before. *)
Lemma handshake_loop_run turns attempt n w :
  attempt + turns = S retries → 0 < turns →
  let f := run env n (handshake_loop userInfo token retries delay turns attempt) w in
  handshake_run req retries delay attempt (trace f) (result f) ∧ after f = w.
Proof.
  revert attempt n.
  induction turns as [|turns IH]; intros attempt n Hsum Hpos; [lia|].
  simpl. destruct (Nat.leb_spec attempt retries) as [Hle|Hgt]; [|lia]. simpl.
  destruct (env n _ (Fetch _)) as [why|[[] [why|o]]]; simpl;
    try (split; [by apply run_accepted|done]).
  all: destruct (Nat.eqb_spec attempt retries) as [->|Hne]; simpl;
    [split; [by apply run_exhausted|done]|].
  all: destruct turns as [|turns']; [lia|].
  all: destruct (IH (S attempt) (S (S n))) as [Hrun Hlast]; [lia..|].
  all: split; [|done].
  all: eapply run_retried; [lia|done|done].
Qed.

Lemma attemptHandshake_run n w :
  0 < retries →
  let f := run env n (attemptHandshake userInfo token retries delay) w in
  handshake_run req retries delay 1 (trace f) (result f) ∧ after f = w.
Proof. intros Hpos. apply handshake_loop_run; lia. Qed.

(** What the grammar says about counts, rhythm and results. *)
Lemma handshake_run_facts attempt tr out :
  handshake_run req retries delay attempt tr out →
  let calls := length (requests_to connect_url tr) in
  1 ≤ calls ∧ attempt + calls ≤ S retries
  ∧ requests_to connect_url tr = replicate calls req
  ∧ beats tr = rounds calls delay
  ∧ length (results_from connect_url tr) = calls
  ∧ match out with
    | Returned (Some o) =>
        ∃ failed, results_from connect_url tr = failed ++ [status true o]
                  ∧ Forall (λ r, handshake_ok r = None) failed
    | Returned None => False
    | Thrown e =>
        attempt + calls = S retries
        ∧ Forall (λ r, handshake_ok r = None) (results_from connect_url tr)
        ∧ ∃ r e', last (results_from connect_url tr) = Some r
                  ∧ attempt_error retries r = Some e'
                  ∧ e = Error ("Failed after " +:+ pretty retries
                               +:+ " attempts: " +:+ message e')
    end.
Proof.
  readers.
  induction 1 as [attempt o Hle|r e Herr|attempt r e tr out Hlt Herr Hrun IH];
    simpl.
  - split_and!; try done; try lia. exists []. by split.
  - split_and!; try done; try lia.
    + repeat constructor. by eapply attempt_error_not_ok.
    + by exists r, e.
  - destruct IH as (Hone & Hmax & Hreqs & Hbeats & Hlen & Hout).
    apply attempt_error_not_ok in Herr.
    split_and!; [lia|lia|by rewrite <- Hreqs| |by rewrite Hlen|].
    + rewrite Hbeats. by destruct (length _); [lia|].
    + destruct out as [[o|]|e0]; [|done|].
      * destruct Hout as (failed & -> & Hfailed).
        exists (r :: failed). split; [done|by constructor].
      * destruct Hout as (Hall & Hfail & r0 & e' & Hlast & Herr' & ->).
        split_and!; [lia|by constructor|].
        exists r0, e'. split_and!; [|done..].
        by rewrite last_cons, Hlast.
Qed.
End HandshakeFacts.

(** Whatever the number of turns, the loop leaves the world alone and
    only fetches, logs and waits. *)
Lemma handshake_loop_frame env userInfo token retries delay turns attempt n w :
  let f := run env n (handshake_loop userInfo token retries delay turns attempt) w in
  after f = w
  ∧ Forall (handshake_event (connect_request (userInfo !! "email") token) delay)
      (trace f).
Proof.
  revert attempt n. induction turns as [|turns IH]; intros attempt n; [done|].
  simpl. destruct (attempt <=? retries); [|done]. simpl.
  destruct (env n _ (Fetch _)) as [why|[[] [why|o]]]; simpl;
    try (split; [done|by repeat constructor]).
  all: destruct (attempt =? retries); simpl;
    [split; [done|by repeat constructor]|].
  all: destruct (IH (S attempt) (S (S n))) as [Hw Hev].
  all: split; [done|by repeat constructor].
Qed.

(** Events of the handshake are invisible to the other readers. *)
Lemma handshake_events_silent req delay tr :
  url req = connect_url →
  Forall (handshake_event req delay) tr →
  writes tr = [] ∧ removals tr = [] ∧ acquired tr = None ∧ token_prompts tr = 0
  ∧ requests_to store_token_url tr = [] ∧ requests_to userinfo_url tr = []
  ∧ results_from store_token_url tr = []
  ∧ Forall (λ r, r = req) (requests_to connect_url tr).
Proof.
  intros Hurl. induction 1 as [|ev tr Hev Hall IH]; [done|].
  destruct IH as (Hw & Hr & Ha & Hp & Hs & Hu & Hrs & Hc).
  readers.
  destruct ev as [| | |[]| | | | |req'|req' r| | | | | |]; simpl in *; try done.
  - subst req'. rewrite Hurl. simpl. split_and!; try done. by constructor.
  - subst req'. rewrite Hurl. simpl. done.
Qed.

(** C2: the retrying handshake makes at least one and at most 3 handshake
    calls, all with the same request; between two consecutive calls, and
    nowhere else, it waits [delay]; it returns with the body of the first
    call that succeeds, which is then its last call; and when no call
    succeeds it has made exactly 3 calls and throws an error that carries
    the message of the error of the third. *)
Theorem bounded_retry env userInfo token delay n w :
  let f := run env n (attemptHandshake userInfo token 3 delay) w in
  let req := connect_request (userInfo !! "email") token in
  let calls := length (requests_to connect_url (trace f)) in
  1 ≤ calls ≤ 3
  ∧ requests_to connect_url (trace f) = replicate calls req
  ∧ beats (trace f) = rounds calls delay
  ∧ length (results_from connect_url (trace f)) = calls
  ∧ match result f with
    | Returned (Some o) =>
        ∃ failed, results_from connect_url (trace f) = failed ++ [status true o]
                  ∧ Forall (λ r, handshake_ok r = None) failed
    | Returned None => False
    | Thrown e =>
        calls = 3
        ∧ Forall (λ r, handshake_ok r = None) (results_from connect_url (trace f))
        ∧ ∃ r e', last (results_from connect_url (trace f)) = Some r
                  ∧ attempt_error 3 r = Some e'
                  ∧ e = Error ("Failed after 3 attempts: " +:+ message e')
    end.
Proof.
  intros f req calls.
  destruct (attemptHandshake_run env userInfo token 3 delay n w)
    as [Hrun _]; [lia|].
  apply handshake_run_facts in Hrun.
  destruct Hrun as (Hone & Hmax & Hreqs & Hbeats & Hlen & Hout).
  fold f in Hone, Hmax, Hreqs, Hbeats, Hlen, Hout. fold calls in Hone, Hmax, Hlen.
  split_and!; try done; try lia.
  destruct (result f) as [[o|]|e]; [done|done|].
  destruct Hout as (Hall & Hfail & r & e' & Hlast & Herr & ->).
  split_and!; [lia|done|]. by exists r, e'.
Qed.

Lemma attemptHandshake_frame env userInfo token retries delay n w :
  let f := run env n (attemptHandshake userInfo token retries delay) w in
  after f = w
  ∧ Forall (handshake_event (connect_request (userInfo !! "email") token) delay)
      (trace f).
Proof. apply handshake_loop_frame. Qed.

(** C10: an invocation of [attemptHandshake], whatever [retries] and
    [delay], leaves the store (and the page) as it found them and makes no
    storage request: its events are handshake calls, their answers, log
    lines and waits of [delay]. *)
Theorem handshake_leaves_store_alone env userInfo token retries delay n w :
  let f := run env n (attemptHandshake userInfo token retries delay) w in
  after f = w
  ∧ writes (trace f) = []
  ∧ removals (trace f) = []
  ∧ Forall (handshake_event (connect_request (userInfo !! "email") token) delay)
      (trace f).
Proof.
  intros f.
  destruct (attemptHandshake_frame env userInfo token retries delay n w)
    as [Hw Hev].
  destruct (handshake_events_silent
              (connect_request (userInfo !! "email") token) delay (trace f))
    as (Hwrites & Hremovals & _); [done|done|].
  by split_and!.
Qed.

(** X1: for every natural number [retries] (a count of attempts; other
    numbers are not covered), [attemptHandshake] makes at most [retries]
    handshake calls, with a wait of [delay] between two consecutive calls
    and nowhere else; it makes no call at all, and returns [undefined],
    exactly when [retries] is 0; it throws only after exactly [retries]
    calls, with an error that names [retries]; and when it returns a body,
    that body is the answer to its last call. *)
Theorem handshake_within_retries env userInfo token retries delay n w :
  let f := run env n (attemptHandshake userInfo token retries delay) w in
  let calls := length (requests_to connect_url (trace f)) in
  calls ≤ retries
  ∧ (retries = 0 ↔ calls = 0)
  ∧ (retries = 0 ↔ result f = Returned None)
  ∧ beats (trace f) = rounds calls delay
  ∧ (∀ e, result f = Thrown e →
          calls = retries
          ∧ ∃ e', e = Error ("Failed after " +:+ pretty retries +:+ " attempts: "
                             +:+ message e'))
  ∧ (∀ o, result f = Returned (Some o) →
          last (results_from connect_url (trace f)) = Some (status true o)).
Proof.
  intros f calls. destruct retries as [|retries].
  - subst f calls. simpl. split_and!; try done.
  - destruct (attemptHandshake_run env userInfo token (S retries) delay n w)
      as [Hrun _]; [lia|].
    apply handshake_run_facts in Hrun.
    destruct Hrun as (Hone & Hmax & Hreqs & Hbeats & Hlen & Hout).
    fold f in Hone, Hmax, Hreqs, Hbeats, Hlen, Hout.
    fold calls in Hone, Hmax, Hlen, Hbeats.
    split_and!; try done; try lia.
    + split; [done|]. intros Hnone. by rewrite Hnone in Hout.
    + intros e He. rewrite He in Hout.
      destruct Hout as (Hall & _ & r & e' & _ & _ & ->).
      split; [lia|]. by exists e'.
    + intros o Ho. rewrite Ho in Hout. destruct Hout as (failed & -> & _).
      by rewrite last_snoc.
Qed.

(** ** Clicks while a connect attempt is pending *)

Lemma start_guarded {A : Type} (p : prog A) w :
  guarded p w →
  match start p w with
  | Finished _ _ _ => True
  | Suspended w' _ c k =>
      connect_disabled (ui w') = true ∧ ∀ x, guarded (k x) w'
  end.
Proof.
  revert w. induction p as [a|e|X o k IH|X c k IH]; intros w Hg; simpl in *;
    try done.
  specialize (IH _ _ Hg). by destruct (start _ _).
Qed.

Ltac answer_cases :=
  lazymatch goal with
  | |- ∀ _ : fetch_result, _ => intros [?|[[] [?|?]]]
  | |- ∀ _ : auth_result, _ => intros [?|?]
  | |- ∀ _ : unit, _ => intros []
  | |- ∀ _ : nat, _ => intros ?
  end.

(** [setButtonLoading(true)] comes first, and the button is enabled again
    only on paths that make no further call. *)
Lemma connect_click_guarded w : guarded connect_click w.
Proof.
  unfold connect_click. simpl.
  repeat first [ exact I | split; [reflexivity|] | answer_cases; simpl ].
Qed.

Lemma calm_settle (p : prog unit) w evs :
  guarded p w → calm (settle (start p w) [] evs).
Proof.
  intros Hg. apply start_guarded in Hg.
  unfold calm. by destruct (start p w) as [w' evs' [|]|].
Qed.

Lemma calm_step s a s' :
  calm s → is_logout_click a = false → step s a = Some s' → calm s'.
Proof.
  unfold calm at 1, step. intros Hcalm Hquiet Hstep.
  destruct (pending s) as [|[X c k] [|]] eqn:Hp; [| |done].
  - destruct a as [[]|i a]; [|done|done].
    destruct (clickable _ _); [|done].
    apply (inj Some) in Hstep. subst s'.
    exact (calm_settle connect_click _ _ (connect_click_guarded _)).
  - destruct Hcalm as [Hoff Hg].
    destruct a as [[]|[|i] a]; [|done| |done].
    + unfold clickable in Hstep. by rewrite Hoff in Hstep.
    + apply (inj Some) in Hstep. subst s'.
      exact (calm_settle _ _ _ (Hg _)).
Qed.

Lemma calm_steps actions s s' :
  calm s → forallb (λ a, negb (is_logout_click a)) actions = true →
  steps s actions = Some s' → calm s'.
Proof.
  revert s.
  induction actions as [|a actions IH]; intros s Hcalm Hquiet Hsteps; simpl in *.
  - by injection Hsteps as <-.
  - apply andb_prop in Hquiet as [Ha Hrest].
    destruct (step s a) as [s1|] eqn:Hstep; [|done].
    apply (IH s1); [|done..].
    eapply calm_step; [done| |done]. by destruct (is_logout_click a).
Qed.

(** C8, as the code has it: as long as the user does not click logout,
    the connect button is disabled whenever a connect attempt is pending,
    so a click on it is not delivered to the handler: no second attempt
    starts and a single handler is suspended at any time. *)
Theorem second_connect_is_not_delivered w actions s :
  forallb (λ a, negb (is_logout_click a)) actions = true →
  steps (idle w) actions = Some s →
  pending s ≠ [] →
  connect_disabled (ui (now s)) = true
  ∧ step s (Click ConnectButton) = None
  ∧ length (pending s) = 1.
Proof.
  intros Hquiet Hsteps Hbusy.
  assert (Hcalm : calm s)
    by (apply (calm_steps actions (idle w)); [exact I|done|done]).
  unfold calm in Hcalm. destruct (pending s) as [|[X c k] [|]]; try done.
  destruct Hcalm as [Hoff _]. split_and!; [done| |done].
  unfold step, clickable. by rewrite Hoff.
Qed.

Lemma second_connect_is_not_delivered_witness :
  forallb (λ a, negb (is_logout_click a)) [Click ConnectButton] = true
  ∧ steps (idle empty_world) [Click ConnectButton] = Some after_first_click
  ∧ pending after_first_click ≠ []
  ∧ connect_disabled (ui (now after_first_click)) = true
  ∧ step after_first_click (Click ConnectButton) = None
  ∧ length (pending after_first_click) = 1.
Proof.
  split; [reflexivity|]. split; [reflexivity|]. split; [discriminate|].
  apply (second_connect_is_not_delivered empty_world [Click ConnectButton]);
    [reflexivity|reflexivity|discriminate].
Defined.

(** C8, as the claim has it, fails: during the handshake the logout button
    is shown and its click is delivered; the logout clears the store and
    runs up to its backend notification between two steps of the connect
    attempt, and shows the connect button again; a second connect click
    then starts a second attempt while the first still waits for its
    handshake; and when that handshake is answered the first attempt writes
    the connection flag into the store that the logout has cleared. *)
Lemma requests_are_interleaved :
  glimpse_of <$> steps (idle empty_world) up_to_handshake
  = Some {| suspended := 1; prompts := 1; handshakes_sent := 1;
            handshakes_answered := 0; logouts_sent := 0; cleared := [];
            flags := (Some (VBool true), Some (VStr "user@example.com"),
                      Some (VStr "tok_abc"));
            shown := {| connect_caption := ConnectedMark;
                        connect_disabled := true;
                        connect_display := DisplayNone;
                        logout_display := DisplayBlock |} |}
  ∧ glimpse_of <$> steps (idle empty_world) (up_to_handshake ++ [Click LogoutButton])
    = Some {| suspended := 2; prompts := 1; handshakes_sent := 1;
              handshakes_answered := 0; logouts_sent := 0; cleared := [];
              flags := (Some (VBool true), Some (VStr "user@example.com"),
                        Some (VStr "tok_abc"));
              shown := {| connect_caption := ConnectedMark;
                          connect_disabled := true;
                          connect_display := DisplayNone;
                          logout_display := DisplayBlock |} |}
  ∧ glimpse_of <$> steps (idle empty_world) race
    = Some {| suspended := 3; prompts := 2; handshakes_sent := 1;
              handshakes_answered := 0; logouts_sent := 1;
              cleared := [session_keys];
              flags := (None, None, None);
              shown := {| connect_caption := Connecting;
                          connect_disabled := true;
                          connect_display := DisplayBlock;
                          logout_display := DisplayNone |} |}
  ∧ glimpse_of <$> steps (idle empty_world) (race ++ [Answer 0 all_well])
    = Some {| suspended := 3; prompts := 2; handshakes_sent := 1;
              handshakes_answered := 1; logouts_sent := 1;
              cleared := [session_keys];
              flags := (Some (VBool true), Some (VStr "user@example.com"), None);
              shown := {| connect_caption := Connecting;
                          connect_disabled := true;
                          connect_display := DisplayBlock;
                          logout_display := DisplayNone |} |}.
Proof. by vm_compute. Qed.

(** ** What every path of a handler does *)

Lemma every_op_bind {A B : Type} P (p : prog A) (f : A → prog B) :
  every_op P p → (∀ a, every_op P (f a)) → every_op P (bind p f).
Proof.
  intros Hp Hf. induction p as [a|e|X o k IH|X c k IH]; simpl in *; [done|done| |].
  - destruct Hp as [Ho Hk]. split; [done|]. intros x. by apply IH.
  - intros x. by apply IH.
Qed.

Lemma every_op_try_catch {A : Type} P (p : prog A) (h : error → prog A) :
  every_op P p → (∀ e, every_op P (h e)) → every_op P (try_catch p h).
Proof.
  intros Hp Hh. induction p as [a|e|X o k IH|X c k IH]; simpl in *; [done|done| |].
  - destruct Hp as [Ho Hk]. split; [done|]. intros x. by apply IH.
  - intros x. by apply IH.
Qed.

Lemma catches_bind {A B : Type} (p : prog A) (f : A → prog B) :
  catches p → (∀ a, catches (f a)) → catches (bind p f).
Proof.
  intros Hp Hf. induction p as [a|e|X o k IH|X c k IH]; simpl in *; [done|done| |].
  all: intros x; by apply IH.
Qed.

(** A [try] whose [catch] block never throws never throws. *)
Lemma catches_try_catch {A : Type} (p : prog A) (h : error → prog A) :
  (∀ e, catches (h e)) → catches (try_catch p h).
Proof.
  intros Hh. induction p as [a|e|X o k IH|X c k IH]; simpl in *; [done|done| |].
  all: intros x; by apply IH.
Qed.

Lemma token_items_session token k :
  k ∉ session_keys → literal [("gmailToken", Some (VStr token))] !! k = None.
Proof.
  intros Hk. unfold literal. rewrite lookup_insert_ne; [done|].
  intros <-. apply Hk. unfold session_keys. set_solver.
Qed.

Lemma connection_items_session userInfo k :
  k ∉ session_keys → connection_items userInfo !! k = None.
Proof.
  intros Hk. unfold connection_items, literal.
  assert (k ≠ "isConnected" ∧ k ≠ "userEmail") as [H1 H2]
    by (split; intros ->; apply Hk; unfold session_keys; set_solver).
  destruct (userInfo !! "email"); by rewrite !lookup_insert_ne, ?lookup_empty.
Qed.

Lemma handshake_loop_session_only userInfo token retries delay turns attempt :
  every_op (@session_only)
    (handshake_loop userInfo token retries delay turns attempt).
Proof.
  revert attempt. induction turns as [|turns IH]; intros attempt; [done|].
  simpl. destruct (attempt <=? retries); [|done]. simpl.
  intros [why|[[] [why|o]]]; simpl; try done.
  all: split; [done|]; intros [].
  all: destruct (attempt =? retries); simpl; [done|].
  all: intros []; apply IH.
Qed.

Lemma attemptHandshake_session_only userInfo token retries delay :
  every_op (@session_only) (attemptHandshake userInfo token retries delay).
Proof. apply handshake_loop_session_only. Qed.

(** ** The connect attempt *)

#[local] Opaque attemptHandshake.

(** The tab callback, with the handshake as a whole. *)
Lemma on_tab_created_run env userInfo token tab n w :
  run env n (on_tab_created userInfo token tab) w =
  let h := run env n (attemptHandshake userInfo token 3 1000) w in
  match result h with
  | Returned response =>
      {| asked := S (S (asked h));
         after := with_store (assign (connection_items userInfo)) w;
         trace :=
           EvTabListenerAdded tab :: trace h ++
           [EvConsole LevelLog [ArgStr "Connection successful:"; arg_of response];
            EvStorageSet (connection_items userInfo);
            EvConsole LevelLog [ArgStr "Storage updated with connection status"];
            EvStorageGet ["isConnected"];
            EvTabFocusScheduled tab 1500;
            EvConsole LevelLog
              [ArgStr "Storage after setting:";
               ArgObj (pick ["isConnected"]
                         (assign (connection_items userInfo) (store w)))]];
         result := Returned tt |}
  | Thrown e =>
      {| asked := asked h;
         after := with_ui error_page w;
         trace :=
           EvTabListenerAdded tab :: trace h ++
           [EvConsole LevelError [ArgStr "Handshake failed:"; ArgErr e];
            EvTabFocusScheduled tab 1500];
         result := Returned tt |}
  end.
Proof.
  unfold on_tab_created, mbind, prog_bind. simpl.
  rewrite run_bind, run_try_catch, run_bind. simpl.
  pose proof (attemptHandshake_frame env userInfo token 3 1000 n w) as [Hw _].
  simpl in Hw.
  destruct (run env n (attemptHandshake userInfo token 3 1000) w)
    as [n' w' tr [response|e]]; simpl in *; subst w'.
  - unfold before; simpl. by rewrite <- !app_assoc.
  - unfold before; simpl. by rewrite <- !app_assoc.
Qed.

Lemma on_tab_created_returns env userInfo token tab n w :
  result (run env n (on_tab_created userInfo token tab) w) = Returned tt.
Proof.
  rewrite on_tab_created_run. simpl.
  by destruct (result (run env n (attemptHandshake userInfo token 3 1000) w)).
Qed.

Lemma handshake_trace_silent env userInfo token n w :
  let tr := trace (run env n (attemptHandshake userInfo token 3 1000) w) in
  writes tr = [] ∧ removals tr = [] ∧ acquired tr = None ∧ token_prompts tr = 0
  ∧ requests_to store_token_url tr = [] ∧ requests_to userinfo_url tr = []
  ∧ results_from store_token_url tr = []
  ∧ Forall (λ r, r = connect_request (userInfo !! "email") token)
      (requests_to connect_url tr).
Proof.
  apply (handshake_events_silent _ 1000); [done|].
  apply attemptHandshake_frame.
Qed.

(** What the readers see of the tab callback. *)
Lemma tab_trace_readers env userInfo token tab n w :
  let f := run env n (on_tab_created userInfo token tab) w in
  results_from store_token_url (trace f) = []
  ∧ requests_to store_token_url (trace f) = []
  ∧ requests_to userinfo_url (trace f) = []
  ∧ acquired (trace f) = None
  ∧ token_prompts (trace f) = 0
  ∧ removals (trace f) = []
  ∧ Forall (λ items, items = connection_items userInfo) (writes (trace f))
  ∧ Forall (λ r, r = connect_request (userInfo !! "email") token)
      (requests_to connect_url (trace f)).
Proof.
  cbv zeta. rewrite on_tab_created_run. cbv zeta.
  destruct (handshake_trace_silent env userInfo token n w)
    as (Hw & Hr & Ha & Hp & Hs & Hu & Hrs & Hc).
  readers.
  destruct (result (run env n (attemptHandshake userInfo token 3 1000) w));
    simpl; rewrite !collect_app; simpl.
  all: rewrite ?Hw, ?Hr, ?Hs, ?Hu, ?Hrs, ?app_nil_r.
  all: split_and!; try done.
  all: try (rewrite length_zero_iff_nil in Hp; by rewrite Hp).
  all: try by repeat constructor.
  all: try (apply head_None in Ha; by rewrite Ha).
Qed.

Lemma on_tab_created_session_only userInfo token tab :
  every_op (@session_only) (on_tab_created userInfo token tab).
Proof.
  unfold on_tab_created, mbind, prog_bind. simpl. split; [done|]. intros [].
  apply every_op_bind.
  - apply every_op_try_catch; [|done].
    apply every_op_bind; [apply attemptHandshake_session_only|].
    intros response. simpl. split_and!; try done.
    intros []. split; [apply connection_items_session|]. done.
  - by intros [result|].
Qed.

#[local] Opaque on_tab_created.

(** The tab callback never throws: the [catch] blocks around the place
    where it is registered are not entered on its behalf. *)
Lemma tab_phase env userInfo token tab h1 h2 n w :
  run env n (try_catch (try_catch (on_tab_created userInfo token tab) h1) h2) w
  = run env n (on_tab_created userInfo token tab) w.
Proof.
  rewrite (run_try_catch_returns _ _ _ _ _ tt);
    rewrite (run_try_catch_returns _ _ _ _ _ tt); try done;
    apply on_tab_created_returns.
Qed.

(** Symbolic execution of [connect_click] up to the tab callback: the
    token, the identity and the answer to [storeToken]. *)
Ltac connect_cases env n :=
  unfold connect, connect_click, on_auth_token; simpl;
  destruct (env n _ (GetAuthToken true)) as [token|why]; simpl;
  [ destruct (env (S (S n)) _ (Fetch (userinfo_request token)))
      as [why|[success [why|userInfo]]]; simpl;
    [ | |
      destruct (env (S (S (S n))) _
                  (Fetch (store_token_request (userInfo !! "email") token)))
        as [why|[[] [why|o]]]; simpl ]
  | ].

Ltac tab_readers env :=
  rewrite ?tab_phase;
  match goal with
  | |- context [run env ?k (on_tab_created ?u ?t ?tab) ?w'] =>
      let Hrs := fresh "Hrs" in let Hs := fresh "Hs" in
      let Hu := fresh "Hu" in let Ha := fresh "Ha" in
      let Hp := fresh "Hp" in let Hr := fresh "Hr" in
      let Hw := fresh "Hw" in let Hc := fresh "Hc" in
      destruct (tab_trace_readers env u t tab k w')
        as (Hrs & Hs & Hu & Ha & Hp & Hr & Hw & Hc);
      readers; simpl in Hrs, Hs, Hu, Ha, Hp, Hr, Hw, Hc
  end.

(** The readers of the handshake outcome, of tabs, revocations and
    rejections, unfolded with the others. *)
Ltac more_readers :=
  unfold handshake_succeeded, requests, tabs_opened, tabs_created,
    focus_scheduled, revocations, provider_threw, rejections in *;
  readers.

(** The events of the handshake are invisible to the readers of tabs,
    revocations, the logout endpoint and logged errors. *)
Lemma handshake_events_quiet req delay tr :
  url req = connect_url →
  Forall (handshake_event req delay) tr →
  tabs_opened tr = [] ∧ tabs_created tr = [] ∧ focus_scheduled tr = []
  ∧ revocations tr = [] ∧ requests_to logout_url tr = []
  ∧ errors_logged tr = [].
Proof.
  intros Hurl. induction 1 as [|ev tr Hev Hall IH]; [done|].
  destruct IH as (Ho & Hc & Hf & Hr & Hl & He).
  unfold errors_logged in *. more_readers.
  destruct ev as [| | |[]| | | | |req'|req' r| | | | | |]; simpl in *; try done.
  subst req'. by rewrite Hurl.
Qed.

(** The handshake of the tab callback succeeded exactly when it
    returned. *)
Lemma handshake_succeeded_result env userInfo token n w :
  let h := run env n (attemptHandshake userInfo token 3 1000) w in
  1 ≤ length (requests_to connect_url (trace h)) ≤ 3
  ∧ match result h with
    | Returned _ => handshake_succeeded (trace h) = true
    | Thrown _ => handshake_succeeded (trace h) = false
                  ∧ length (requests_to connect_url (trace h)) = 3
    end.
Proof.
  intros h.
  destruct (attemptHandshake_run env userInfo token 3 1000 n w) as [Hrun _]; [lia|].
  apply handshake_run_facts in Hrun.
  destruct Hrun as (Hone & Hmax & _ & _ & _ & Hout). fold h in Hone, Hmax, Hout.
  split; [lia|]. unfold handshake_succeeded.
  destruct (result h) as [[o|]|e]; [|done|].
  - destruct Hout as (failed & -> & _). rewrite existsb_app. simpl.
    by rewrite orb_true_r.
  - destruct Hout as (Hcalls & Hall & _). split; [|lia].
    induction Hall as [|r rs Hr _ IH]; [done|]. simpl. by rewrite Hr.
Qed.

(** The tab callback as the readers see it: the handshake decides between
    the second write of the connection flag and the error page. *)
Lemma tab_outcome env userInfo token tab n w :
  let f := run env n (on_tab_created userInfo token tab) w in
  1 ≤ length (requests_to connect_url (trace f)) ≤ 3
  ∧ tabs_opened (trace f) = [] ∧ tabs_created (trace f) = []
  ∧ focus_scheduled (trace f) = [(tab, 1500)]
  ∧ revocations (trace f) = [] ∧ requests_to logout_url (trace f) = []
  ∧ if handshake_succeeded (trace f)
    then after f = with_store (assign (connection_items userInfo)) w
         ∧ writes (trace f) = [connection_items userInfo]
         ∧ errors_logged (trace f) = []
    else after f = with_ui error_page w
         ∧ writes (trace f) = []
         ∧ length (requests_to connect_url (trace f)) = 3
         ∧ length (errors_logged (trace f)) = 1.
Proof.
  cbv zeta. rewrite on_tab_created_run. cbv zeta.
  destruct (handshake_trace_silent env userInfo token n w)
    as (Hw & _ & _ & _ & _ & _ & _ & _).
  destruct (handshake_events_quiet
              (connect_request (userInfo !! "email") token) 1000
              (trace (run env n (attemptHandshake userInfo token 3 1000) w)))
    as (Ho & Hc & Hf & Hr & Hl & He); [done|apply attemptHandshake_frame|].
  destruct (handshake_succeeded_result env userInfo token n w) as [Hn Hres].
  unfold errors_logged in *. more_readers.
  destruct (result (run env n (attemptHandshake userInfo token 3 1000) w));
    simpl; rewrite !collect_app; simpl.
  all: rewrite ?Hw, ?Ho, ?Hc, ?Hf, ?Hr, ?Hl, ?He, ?app_nil_r; simpl.
  - rewrite Hres. split_and!; try done; lia.
  - destruct Hres as [-> H3]. split_and!; try done; lia.
Qed.

Ltac tab_facts env :=
  rewrite ?tab_phase;
  match goal with
  | |- context [run env ?k (on_tab_created ?u ?t ?tab) ?w'] =>
      let Hn := fresh "Hn" in let Ho := fresh "Ho" in
      let Hc := fresh "Hc" in let Hf := fresh "Hf" in
      let Hv := fresh "Hv" in let Hl := fresh "Hl" in
      let Hend := fresh "Hend" in
      destruct (tab_outcome env u t tab k w')
        as (Hn & Ho & Hc & Hf & Hv & Hl & Hend);
      unfold errors_logged in *; more_readers;
      simpl in Hn, Ho, Hc, Hf, Hv, Hl, Hend
  end.

(** Of the events of the handshake a story keeps the answers, when it
    picks them and neither the calls, the log lines nor the waits. *)
Lemma handshake_story p req delay tr :
  url req = connect_url →
  (∀ r, p (EvFetchResult req r) = true) →
  p (EvFetch req) = false →
  (∀ args, p (EvConsole LevelLog args) = false) →
  (∀ ms, p (EvTimeout ms) = false) →
  Forall (handshake_event req delay) tr →
  story p tr = map (EvFetchResult req) (results_from connect_url tr).
Proof.
  intros Hurl Hres Hreq Hlog Hwait. unfold story, results_from.
  induction 1 as [|ev tr Hev Hall IH]; [done|].
  destruct ev as [| | |[]| | | | |req'|req' r| | | | | |]; simpl in *; try done.
  - by rewrite Hlog.
  - subst req'. by rewrite Hreq.
  - subst req'. rewrite Hres, Hurl. simpl. by rewrite IH.
  - by rewrite Hwait.
Qed.

(** The stories of the tab callback. *)
Lemma tab_stories env userInfo token tab n w :
  let f := run env n (on_tab_created userInfo token tab) w in
  let answers :=
    map (EvFetchResult (connect_request (userInfo !! "email") token))
      (results_from connect_url (trace f)) in
  story write_milestone (trace f)
  = answers ++ (if handshake_succeeded (trace f)
                then [EvStorageSet (connection_items userInfo)] else [])
  ∧ story tab_milestone (trace f) = answers ++ [EvTabFocusScheduled tab 1500].
Proof.
  cbv zeta. rewrite on_tab_created_run. cbv zeta.
  pose proof (attemptHandshake_frame env userInfo token 3 1000 n w) as [_ Hev].
  cbv zeta in Hev.
  assert (Hws := handshake_story write_milestone
                   (connect_request (userInfo !! "email") token) _ _ eq_refl
                   (λ _, eq_refl) eq_refl (λ _, eq_refl) (λ _, eq_refl) Hev).
  assert (Hts := handshake_story tab_milestone
                   (connect_request (userInfo !! "email") token) _ _ eq_refl
                   (λ _, eq_refl) eq_refl (λ _, eq_refl) (λ _, eq_refl) Hev).
  destruct (handshake_succeeded_result env userInfo token n w) as [_ Hres].
  unfold story in *. more_readers.
  destruct (result (run env n (attemptHandshake userInfo token 3 1000) w));
    simpl; rewrite !collect_app; simpl.
  all: rewrite Hws, Hts, ?app_nil_r.
  - by rewrite Hres.
  - destruct Hres as [-> _]. by rewrite app_nil_r.
Qed.

Ltac tab_story_facts env :=
  rewrite ?tab_phase;
  match goal with
  | |- context [run env ?k (on_tab_created ?u ?t ?tab) ?w'] =>
      let Hws := fresh "Hws" in let Hts := fresh "Hts" in
      destruct (tab_stories env u t tab k w') as (Hws & Hts);
      unfold story in *; more_readers; simpl in Hws, Hts
  end.

(** With a storage that never fails, the callbacks and the handler end
    normally: every failure of the provider or of the network is caught
    and shown. *)
Lemma on_auth_token_returns env r n w :
  result (run env n (on_auth_token r) w) = Returned tt.
Proof.
  destruct r as [token|why]; unfold on_auth_token; simpl; [|done].
  destruct (env (S n) _ (Fetch (userinfo_request token)))
    as [why|[success [why|userInfo]]]; simpl; try done.
  destruct (env (S (S n)) _
              (Fetch (store_token_request (userInfo !! "email") token)))
    as [why|[[] [why|o]]]; simpl; try done.
  all: rewrite (run_try_catch_returns _ _ _ _ _ tt); apply on_tab_created_returns.
Qed.

Lemma connect_returns env n w : result (connect env n w) = Returned tt.
Proof.
  connect_cases env n; try done.
  all: rewrite tab_phase; apply on_tab_created_returns.
Qed.

Lemma dom_token_items token :
  dom (literal [("gmailToken", Some (VStr token))])
  = ({["gmailToken"]} : gset string).
Proof. unfold literal. set_solver. Qed.

Lemma connection_items_flags userInfo :
  connection_flags (connection_items userInfo).
Proof.
  unfold connection_flags, connection_items, literal.
  destruct (userInfo !! "email"); [left|right]; set_solver.
Qed.

(** C1, as the code has it: when credential acquisition, identity
    resolution or storeToken fails (storeToken is not answered with
    success), [isConnected] and [userEmail] are what they were before the
    attempt; [gmailToken] is untouched only when no credential was
    acquired: an acquired credential is already stored under [gmailToken]
    and stays there. *)
Theorem failure_before_registration env n w :
  registered (trace (connect env n w)) = false →
  let f := connect env n w in
  store (after f) !! "isConnected" = store w !! "isConnected"
  ∧ store (after f) !! "userEmail" = store w !! "userEmail"
  ∧ store (after f)
    = match acquired (trace f) with
      | Some token => <["gmailToken" := VStr token]> (store w)
      | None => store w
      end.
Proof.
  readers. connect_cases env n; intros Hreg; try discriminate Hreg.
  all: rewrite ?assign_token, ?lookup_insert_ne by done; done.
Qed.

Lemma failure_before_registration_witness :
  registered (trace (connect token_rejected 0 empty_world)) = false
  ∧ let f := connect token_rejected 0 empty_world in
    store (after f) !! "isConnected" = store empty_world !! "isConnected"
    ∧ store (after f) !! "userEmail" = store empty_world !! "userEmail"
    ∧ store (after f)
      = match acquired (trace f) with
        | Some token => <["gmailToken" := VStr token]> (store empty_world)
        | None => store empty_world
        end.
Proof.
  split; [vm_compute; reflexivity|].
  apply (failure_before_registration token_rejected 0 empty_world).
  vm_compute; reflexivity.
Defined.

(** C1, as the claim has it, fails: with every handshake refused the store
    ends with [isConnected = true], the identity and the credential; and
    with the identity endpoint down the credential is stored all the
    same. *)
Lemma connected_without_handshake :
  (let f := connect handshake_down 0 empty_world in
   length (requests_to connect_url (trace f)) = 3
   ∧ Forall (λ r, handshake_ok r = None) (results_from connect_url (trace f))
   ∧ store (after f) !! "isConnected" = Some (VBool true)
   ∧ store (after f) !! "userEmail" = Some (VStr "user@example.com")
   ∧ store (after f) !! "gmailToken" = Some (VStr "tok_abc"))
  ∧ (let f := connect identity_down 0 empty_world in
     requests_to store_token_url (trace f) = []
     ∧ requests_to connect_url (trace f) = []
     ∧ store (after f) !! "isConnected" = None
     ∧ store (after f) !! "gmailToken" = Some (VStr "tok_abc")).
Proof. vm_compute. split_and!; try done. by repeat constructor. Qed.

(** C3, as the code has it: when the storeToken call fails, the connect
    attempt aborts (no handshake call is made, the flags are not written,
    the page shows the error), but the credential acquired in the first
    step is not discarded: it is what the store holds under [gmailToken]
    after the attempt. *)
Theorem store_token_failure_keeps_credential env n w :
  store_token_failed (trace (connect env n w)) = true →
  let f := connect env n w in
  ∃ token,
    acquired (trace f) = Some token
    ∧ store (after f) = <["gmailToken" := VStr token]> (store w)
    ∧ store (after f) !! "gmailToken" = Some (VStr token)
    ∧ requests_to connect_url (trace f) = []
    ∧ ui (after f) = error_page (ui w)
    ∧ result f = Returned tt.
Proof.
  readers. connect_cases env n; intros Hfail; try discriminate Hfail.
  all: try (exists token; rewrite assign_token, ?lookup_insert_eq; by split_and!).
  all: exfalso; revert Hfail; tab_readers env.
  all: simpl; by rewrite Hrs.
Qed.

Lemma store_token_failure_keeps_credential_witness :
  store_token_failed (trace (connect token_rejected 0 empty_world)) = true
  ∧ let f := connect token_rejected 0 empty_world in
    ∃ token,
      acquired (trace f) = Some token
      ∧ store (after f) = <["gmailToken" := VStr token]> (store empty_world)
      ∧ store (after f) !! "gmailToken" = Some (VStr token)
      ∧ requests_to connect_url (trace f) = []
      ∧ ui (after f) = error_page (ui empty_world)
      ∧ result f = Returned tt.
Proof.
  split; [vm_compute; reflexivity|].
  apply (store_token_failure_keeps_credential token_rejected 0 empty_world).
  vm_compute; reflexivity.
Defined.

(** C3, as the claim has it, fails: storeToken answers 400 and a key of
    the store holds the credential after the attempt. *)
Lemma rejected_credential_is_stored :
  let f := connect token_rejected 0 empty_world in
  results_from store_token_url (trace f)
  = [status false {["detail" := VStr "bad token"]}]
  ∧ acquired (trace f) = Some "tok_abc"
  ∧ store (after f) !! "gmailToken" = Some (VStr "tok_abc").
Proof. by vm_compute. Qed.

(** C5, as the code has it: storeToken is called at most once in a connect
    attempt, and exactly once when the identity endpoint answered with a
    body; when the call fails no handshake call is made and the store
    differs from the initial one by [gmailToken], which holds the acquired
    credential; and when the call is answered with a non-2xx status and a
    JSON body, the error that is logged carries its [detail] (or
    [Unknown error] when the detail is missing or empty). *)
Theorem store_token_called_once env n w :
  let f := connect env n w in
  length (requests_to store_token_url (trace f)) ≤ 1
  ∧ length (results_from store_token_url (trace f))
    = length (requests_to store_token_url (trace f))
  ∧ (resolved (trace f) ≠ None →
     length (requests_to store_token_url (trace f)) = 1)
  ∧ (store_token_failed (trace f) = true →
     requests_to connect_url (trace f) = []
     ∧ ∃ token, acquired (trace f) = Some token
                ∧ store (after f) = <["gmailToken" := VStr token]> (store w))
  ∧ (∀ o, results_from store_token_url (trace f) = [status false o] →
          EvConsole LevelError
            [ArgStr "Error:";
             ArgErr (Error ("Failed to connect Gmail: "
                            +:+ or_default (o !! "detail") "Unknown error"))]
          ∈ trace f).
Proof.
  readers. connect_cases env n.
  all: try tab_readers env; simpl; rewrite ?Hs, ?Hrs; simpl.
  all: split_and!; try done; try lia.
  all: try (intros _; split; [done|]; exists token; by rewrite assign_token).
  all: try (intros o' [= <-]; set_solver).
Qed.

(** C5, as the claim has it, fails: storeToken answers 400 with the detail
    [bad token]; no handshake call is made and the logged error carries the
    detail, but the store is no longer the empty store it was; and in an
    attempt that fails at the identity endpoint storeToken is not called at
    all. *)
Lemma rejection_changes_the_store :
  let f := connect token_rejected 0 empty_world in
  store empty_world = ∅
  ∧ length (requests_to store_token_url (trace f)) = 1
  ∧ requests_to connect_url (trace f) = []
  ∧ errors_logged (trace f)
    = [[ArgStr "Error:"; ArgErr (Error "Failed to connect Gmail: bad token")]]
  ∧ store (after f) !! "gmailToken" = Some (VStr "tok_abc")
  ∧ store (after f) ≠ store empty_world
  ∧ requests_to store_token_url (trace (connect identity_down 0 empty_world)) = [].
Proof.
  split_and!; try (vm_compute; reflexivity).
  intros Heq. apply (f_equal (λ m : obj, m !! "gmailToken")) in Heq.
  vm_compute in Heq. discriminate Heq.
Qed.

(** C7, as the code has it: the three keys are cleared only together, by
    the one removal of the disconnect protocol, which a logout makes
    exactly when it finds an identity; they are never written together: a
    connect attempt writes [gmailToken] alone right after the token is
    acquired, before any request is answered, and [isConnected] with
    [userEmail] (without it when the identity endpoint gave no email) in
    writes of their own, once after storeToken is accepted, before the
    first handshake answer, and once more after the handshake answer that
    succeeds; these are all the writes of a connect attempt, which removes
    nothing, and a disconnect writes nothing. *)
Theorem keys_written_in_two_steps env n w :
  Forall (λ items, token_alone items ∨ connection_flags items)
    (writes (trace (connect env n w)))
  ∧ removals (trace (connect env n w)) = []
  ∧ writes (trace (disconnect env n w)) = []
  ∧ Forall (λ keys, keys = session_keys) (removals (trace (disconnect env n w)))
  ∧ removals (trace (disconnect env n w))
    = (if truthy (store w !! "userEmail") then [session_keys] else [])
  ∧ (let tr := trace (connect env n w) in
     story write_milestone tr
     = match acquired tr with
       | None => []
       | Some token =>
           EvAuthResult (AuthToken token)
           :: EvStorageSet (literal [("gmailToken", Some (VStr token))])
           :: match resolved tr, results_from store_token_url tr with
              | Some userInfo, r :: _ =>
                  EvFetchResult
                    (store_token_request (userInfo !! "email") token) r
                  :: (if accepted r then
                        EvStorageSet (connection_items userInfo)
                        :: map (EvFetchResult
                                  (connect_request (userInfo !! "email") token))
                             (results_from connect_url tr)
                        ++ (if handshake_succeeded tr
                            then [EvStorageSet (connection_items userInfo)]
                            else [])
                      else [])
              | _, _ => []
              end
       end).
Proof.
  split_and!.
  - readers. connect_cases env n; try tab_readers env; simpl.
    all: repeat lazymatch goal with
                | |- Forall _ (_ :: _) =>
                    apply Forall_cons; split;
                    [first [left; apply dom_token_items
                           |right; apply connection_items_flags]|]
                | |- Forall _ [] => by constructor
                end.
    all: eapply Forall_impl; [exact Hw|]; intros items ->; right;
      apply connection_items_flags.
  - readers. connect_cases env n; try tab_readers env; simpl; done.
  - readers. unfold disconnect, logout_click. simpl.
    destruct (truthy _); simpl; [|done].
    destruct (env (S (S n)) _ _) as [|why|why]; simpl; [| |done].
    all: by destruct (env (S (S (S n))) _ _) as [why'|[[] [why'|o]]].
  - readers. unfold disconnect, logout_click. simpl.
    destruct (truthy _); simpl; [|done].
    destruct (env (S (S n)) _ _) as [|why|why]; simpl;
      [| |by repeat constructor].
    all: destruct (env (S (S (S n))) _ _) as [why'|[[] [why'|o]]]; simpl;
      by repeat constructor.
  - readers. unfold disconnect, logout_click. simpl.
    rewrite pick_lookup by set_solver.
    destruct (truthy _); simpl; [|done].
    destruct (env (S (S n)) _ _) as [|why|why]; simpl; [| |done].
    all: by destruct (env (S (S (S n))) _ _) as [why'|[[] [why'|o]]].
  - cbv zeta. unfold story. more_readers.
    connect_cases env n; try tab_story_facts env; simpl; try done.
    all: try tab_readers env; simpl.
    all: by rewrite Hws, ?Hrs.
Qed.

(** C7, as the claim has it, fails: in a connect attempt where everything
    succeeds the first write carries [gmailToken] alone, and the two others
    [isConnected] and [userEmail] without it (each write is shown by what
    it holds for the three keys). *)
Lemma token_is_written_alone :
  session_flags <$> writes (trace (connect (λ _, all_well) 0 empty_world))
  = [ (None, None, Some (VStr "tok_abc"));
      (Some (VBool true), Some (VStr "user@example.com"), None);
      (Some (VBool true), Some (VStr "user@example.com"), None) ].
Proof. vm_compute. reflexivity. Qed.

(** C9: in a connect attempt the token is asked for once and the identity
    endpoint at most once, and every storeToken and handshake request
    carries the same body: the email of the answer of the identity endpoint
    and the token that was acquired. *)
Theorem one_pair_per_attempt env n w :
  let tr := trace (connect env n w) in
  token_prompts tr = 1
  ∧ length (requests_to userinfo_url tr) ≤ 1
  ∧ Forall (λ req, ∃ token userInfo,
                     acquired tr = Some token
                     ∧ resolved tr = Some userInfo
                     ∧ body req = Some (literal [("email", userInfo !! "email");
                                                 ("token", Some (VStr token))]))
      (requests_to store_token_url tr ++ requests_to connect_url tr).
Proof.
  readers. connect_cases env n; try tab_readers env; simpl;
    rewrite ?Hs, ?Hu, ?Hp; simpl.
  all: split_and!; try done; try lia.
  all: repeat lazymatch goal with
              | |- Forall _ (_ :: _) =>
                  apply Forall_cons; split; [by exists token, userInfo|]
              | |- Forall _ [] => by constructor
              end.
  all: eapply Forall_impl; [exact Hc|]; intros req ->; by exists token, userInfo.
Qed.

(** ** The disconnect *)

(** C4: when the stored [userEmail] is present (truthy), the removal of
    the three keys is the first thing the logout does after reading the
    store: it comes before the provider is asked to revoke and before the
    backend is notified; whatever the provider and the backend answer
    (failure, or the provider call throwing), the three keys are gone and
    the rest of the store is as it was, the handler ends normally, what
    follows the removal is only answers, the notification and logged
    errors, and the page does not turn to the error caption; a provider
    call that throws and a notification that fails are logged. *)
Theorem logout_clears_first env n w :
  truthy (store w !! "userEmail") = true →
  let f := disconnect env n w in
  (∀ k, store (after f) !! k
        = if bool_decide (k ∈ session_keys) then None else store w !! k)
  ∧ (∃ rest,
       trace f = EvStorageGet ["userEmail"; "gmailToken"]
                 :: EvStorageRemove session_keys
                 :: EvRemoveCachedAuthToken (store w !! "gmailToken")
                 :: rest
       ∧ forallb logout_aftermath rest = true
       ∧ Forall (λ req, req = logout_request (store w !! "userEmail"))
           (requests_to logout_url rest))
  ∧ result f = Returned tt
  ∧ (connect_caption (ui (after f)) = ErrorTryAgain →
     connect_caption (ui w) = ErrorTryAgain)
  ∧ (∀ why, EvRevokeResult (RevokeThrows why) ∈ trace f →
            errors_logged (trace f)
            = [[ArgStr "Logout failed:"; ArgErr (Error why)]])
  ∧ (existsb (λ r, negb (accepted r)) (results_from logout_url (trace f)) = true →
     length (errors_logged (trace f)) = 1).
Proof.
  intros Hyes. unfold disconnect, logout_click, errors_logged. readers. simpl.
  rewrite !pick_lookup by set_solver. rewrite Hyes. simpl.
  destruct (env (S (S n)) _ _) as [|why|why]; simpl.
  3: { split_and!; [apply remove_session_keys| |done|done| |done].
       - eexists. split; [done|]. split; [done|]. constructor.
       - intros why' Hin. in_cases Hin. by simplify_eq. }
  all: destruct (env (S (S (S n))) _ _) as [why'|[[] [why'|o]]]; simpl.
  all: split_and!; [apply remove_session_keys| |done|done| |done].
  all: try (eexists; split; [done|]; split; [done|]; by repeat constructor).
  all: intros why'' Hin; by in_cases Hin.
Qed.

Lemma logout_clears_first_witness :
  truthy (store connected_world !! "userEmail") = true
  ∧ let f := disconnect revoke_throws 0 connected_world in
    (∀ k, store (after f) !! k
          = if bool_decide (k ∈ session_keys) then None
            else store connected_world !! k)
    ∧ (∃ rest,
         trace f = EvStorageGet ["userEmail"; "gmailToken"]
                   :: EvStorageRemove session_keys
                   :: EvRemoveCachedAuthToken (store connected_world !! "gmailToken")
                   :: rest
         ∧ forallb logout_aftermath rest = true
         ∧ Forall (λ req, req = logout_request (store connected_world !! "userEmail"))
             (requests_to logout_url rest))
    ∧ result f = Returned tt
    ∧ (connect_caption (ui (after f)) = ErrorTryAgain →
       connect_caption (ui connected_world) = ErrorTryAgain)
    ∧ (∀ why, EvRevokeResult (RevokeThrows why) ∈ trace f →
              errors_logged (trace f)
              = [[ArgStr "Logout failed:"; ArgErr (Error why)]])
    ∧ (existsb (λ r, negb (accepted r)) (results_from logout_url (trace f)) = true →
       length (errors_logged (trace f)) = 1).
Proof.
  split; [vm_compute; reflexivity|].
  apply (logout_clears_first revoke_throws 0 connected_world).
  vm_compute; reflexivity.
Defined.

(** C6: when the store holds no [userEmail] (or an empty one), the logout
    reads the store, logs that no user email was found and returns: the
    world is as it was, and the trace has no network call, no write and no
    removal. *)
Theorem logout_without_identity env n w :
  truthy (store w !! "userEmail") = false →
  let f := disconnect env n w in
  after f = w
  ∧ trace f = [EvStorageGet ["userEmail"; "gmailToken"];
               EvConsole LevelError [ArgStr "No user email found in storage"]]
  ∧ result f = Returned tt.
Proof.
  intros Hno. unfold disconnect, logout_click. simpl.
  rewrite pick_lookup by set_solver. by rewrite Hno.
Qed.

Lemma logout_without_identity_witness :
  truthy (store empty_world !! "userEmail") = false
  ∧ let f := disconnect (λ _, all_well) 0 empty_world in
    after f = empty_world
    ∧ trace f = [EvStorageGet ["userEmail"; "gmailToken"];
                 EvConsole LevelError [ArgStr "No user email found in storage"]]
    ∧ result f = Returned tt.
Proof.
  split; [vm_compute; reflexivity|].
  apply (logout_without_identity (λ _, all_well) 0 empty_world).
  vm_compute; reflexivity.
Defined.

(** ** Two runs of the connect attempt *)

(** The token is [tok_abc], the account [user@example.com], storeToken is
    accepted, the handshake fails once and is then acknowledged: two
    handshake calls, one wait of a second, and the three keys in the
    store. *)
Example handshake_succeeds_on_second_try :
  let f := connect second_try 0 empty_world in
  length (requests_to connect_url (trace f)) = 2
  ∧ beats (trace f) = [Attempt; Wait 1000; Attempt]
  ∧ session_flags (store (after f))
    = (Some (VBool true), Some (VStr "user@example.com"), Some (VStr "tok_abc"))
  ∧ connect_caption (ui (after f)) = ConnectedMark
  ∧ result f = Returned tt.
Proof. by vm_compute. Qed.

(** ** The popup reopened *)

(** After a connect attempt whose handshakes were all refused, the popup
    that opens next finds [isConnected] in the store and shows the account
    as connected. *)
Example reopened_after_failed_handshake :
  let f := connect handshake_down 0 empty_world in
  let g := run handshake_down 0 popup_opened
             {| store := store (after f); ui := fresh_page |} in
  connect_caption (ui (after f)) = ErrorTryAgain
  ∧ ui (after g) = {| connect_caption := ConnectedMark; connect_disabled := true;
                      connect_display := DisplayNone;
                      logout_display := DisplayBlock |}.
Proof. by vm_compute. Qed.

(** ** What holds of every schedule *)

Lemma connect_click_session_only : every_op (@session_only) connect_click.
Proof.
  unfold connect_click. apply every_op_try_catch; [|done].
  simpl. split; [done|]. intros []. split; [done|]. intros [].
  intros [token|why]; [|done].
  unfold on_auth_token, mbind, prog_bind.
  simpl. split; [apply token_items_session|]. intros [] [].
  intros [why|[success [why|userInfo]]]; simpl; try done.
  intros [why|[[] [why|o]]]; simpl; try done.
  all: split; [apply connection_items_session|]; intros [] [].
  all: split_and!; try done; intros [].
  all: split_and!; try done; intros [].
  all: split_and!; try done; intros [].
  all: split_and!; try done; intros [].
  all: intros tab.
  all: apply every_op_try_catch; [|done].
  all: apply on_tab_created_session_only.
Qed.

Lemma logout_click_session_only : every_op (@session_only) logout_click.
Proof.
  unfold logout_click. simpl. split; [done|]. intros items [].
  destruct (truthy _); simpl; [|done].
  split; [done|]. intros [] [].
  intros [|why|why]; simpl; try done.
  all: split_and!; try done; intros [].
  all: split_and!; try done; intros [].
  all: split_and!; try done; intros [].
  all: split_and!; try done; intros [].
  all: intros [why'|[[] [why'|o]]]; simpl; done.
Qed.

Lemma listener_session_only b : every_op (@session_only) (listener b).
Proof.
  destruct b; [apply connect_click_session_only|apply logout_click_session_only].
Qed.

Lemma same_outside_refl m : same_outside m m.
Proof. by intros k Hk. Qed.

Lemma same_outside_trans m1 m2 m3 :
  same_outside m1 m2 → same_outside m2 m3 → same_outside m1 m3.
Proof. intros H12 H23 k Hk. by rewrite H23, H12. Qed.

Lemma remove_keys_outside keys (m : obj) k :
  k ∉ keys → remove_keys keys m !! k = m !! k.
Proof.
  unfold remove_keys. induction keys as [|k' keys IH]; intros Hk; simpl; [done|].
  apply not_elem_of_cons in Hk as [Hne Hk].
  rewrite lookup_delete_ne by done. by apply IH.
Qed.

Lemma perform_session_only {X : Type} (o : op X) w :
  session_only o → same_outside (store w) (store (perform o w).1).
Proof.
  destruct o; simpl; intros Ho k Hk; try done.
  - unfold assign. rewrite lookup_union_r; [done|]. by apply Ho.
  - apply remove_keys_outside. intros Hin. apply Hk. by apply Ho.
Qed.

Lemma start_session_only (p : prog unit) w :
  every_op (@session_only) p →
  match start p w with
  | Finished w' _ _ => same_outside (store w) (store w')
  | Suspended w' _ c k =>
      same_outside (store w) (store w') ∧ ∀ x, every_op (@session_only) (k x)
  end.
Proof.
  revert w. induction p as [a|e|X o k IH|X c k IH]; intros w Hp; simpl in *.
  - apply same_outside_refl.
  - apply same_outside_refl.
  - destruct Hp as [Ho Hk].
    specialize (IH (perform o w).2 (perform o w).1 (Hk _)).
    pose proof (perform_session_only o w Ho) as Hw.
    destruct (start _ _); simpl.
    + by eapply same_outside_trans.
    + destruct IH as [Hw' Hk']. split; [by eapply same_outside_trans|done].
  - split; [apply same_outside_refl|done].
Qed.

Lemma settle_session_only (p : prog unit) w others evs :
  every_op (@session_only) p →
  Forall (λ t, match t with
               | Waiting c k => ∀ x, every_op (@session_only) (k x)
               end) others →
  let s := settle (start p w) others evs in
  contained s ∧ same_outside (store w) (store (now s)).
Proof.
  intros Hp Hothers. apply (start_session_only p w) in Hp.
  unfold contained. destruct (start p w) as [w' evs' [|]|w' evs' X c k]; simpl;
    [done|done|].
  destruct Hp as [Hw Hk]. split; [|done].
  apply Forall_app. split; [done|]. by constructor.
Qed.

Lemma step_session_only s a s' :
  contained s → step s a = Some s' →
  contained s' ∧ same_outside (store (now s)) (store (now s')).
Proof.
  unfold step. intros Hs Hstep. destruct a as [b|i a].
  - destruct (clickable _ _); [|done].
    apply (inj Some) in Hstep. subst s'.
    apply settle_session_only; [apply listener_session_only|done].
  - destruct (pending s !! i) as [[X c k]|] eqn:Hi; [|done].
    apply (inj Some) in Hstep. subst s'.
    apply settle_session_only.
    + unfold contained in Hs. rewrite Forall_lookup in Hs.
      exact (Hs i _ Hi _).
    + by apply Forall_delete.
Qed.

Lemma steps_session_only actions s s' :
  contained s → steps s actions = Some s' →
  same_outside (store (now s)) (store (now s')).
Proof.
  revert s. induction actions as [|a actions IH]; intros s Hs Hsteps; simpl in *.
  - apply (inj Some) in Hsteps. subst s'. apply same_outside_refl.
  - destruct (step s a) as [s1|] eqn:Hstep; [|done].
    destruct (step_session_only s a s1 Hs Hstep) as [Hs1 Hw].
    eapply same_outside_trans; [done|]. by apply IH.
Qed.

Lemma run_session_only {A : Type} env (p : prog A) n w :
  every_op (@session_only) p →
  same_outside (store w) (store (after (run env n p w))).
Proof.
  revert n w. induction p as [a|e|X o k IH|X c k IH]; intros n w Hp; simpl in *.
  - apply same_outside_refl.
  - apply same_outside_refl.
  - destruct Hp as [Ho Hk].
    eapply same_outside_trans; [exact (perform_session_only o w Ho)|].
    by apply IH.
  - by apply IH.
Qed.

Lemma rejections_app tr1 tr2 :
  rejections (tr1 ++ tr2) = rejections tr1 ++ rejections tr2.
Proof. apply collect_app. Qed.

Lemma answered_no_rejection {X : Type} (c : ext X) x :
  rejections (answered c x) = [].
Proof. by destruct c. Qed.

Lemma start_catches (p : prog unit) w :
  catches p →
  match start p w with
  | Finished _ evs out => rejections evs = [] ∧ rejection out = []
  | Suspended _ evs c k => rejections evs = [] ∧ ∀ x, catches (k x)
  end.
Proof.
  revert w. induction p as [a|e|X o k IH|X c k IH]; intros w Hp; simpl in *;
    [done|done| |].
  - specialize (IH (perform o w).2 (perform o w).1 (Hp _)).
    destruct (start _ _); simpl; rewrite rejections_app.
    all: destruct IH as [-> Hk]; rewrite app_nil_r.
    all: by destruct o.
  - split; [by destruct c|done].
Qed.

Lemma settle_caught (p : prog unit) w others evs :
  catches p →
  Forall (λ t, match t with Waiting c k => ∀ x, catches (k x) end) others →
  rejections evs = [] →
  let s := settle (start p w) others evs in
  caught s ∧ rejections (seen s) = [].
Proof.
  intros Hp Hothers Hevs. apply (start_catches p w) in Hp.
  unfold caught.
  destruct (start p w) as [w' evs' [|e]|w' evs' X c k]; simpl;
    destruct Hp as [Hevs' Hk]; rewrite ?rejections_app, ?Hevs, ?Hevs'.
  - done.
  - done.
  - split; [|done]. apply Forall_app. split; [done|]. by constructor.
Qed.

(** The [catch] of the logout listener takes whatever its body throws,
    the provider call that throws included; the callback of the provider
    call has a [catch] of its own around the notification. *)
Lemma logout_click_catches : catches logout_click.
Proof. by apply catches_try_catch. Qed.

Lemma on_token_removed_catches userEmail : catches (on_token_removed userEmail).
Proof.
  unfold on_token_removed, mbind, prog_bind.
  do 4 (apply catches_bind; [done|intros []]).
  by apply catches_try_catch.
Qed.

Lemma step_caught s a s' :
  caught s → rejections (seen s) = [] → is_connect_click a = false →
  step s a = Some s' →
  caught s' ∧ rejections (seen s') = [].
Proof.
  unfold step. intros Hs Hseen Hquiet Hstep. destruct a as [[]|i a]; [done| |].
  - destruct (clickable _ _); [|done].
    apply (inj Some) in Hstep. subst s'.
    apply settle_caught; [apply logout_click_catches|done|done].
  - destruct (pending s !! i) as [[X c k]|] eqn:Hi; [|done].
    apply (inj Some) in Hstep. subst s'.
    apply settle_caught.
    + unfold caught in Hs. rewrite Forall_lookup in Hs.
      exact (Hs i _ Hi _).
    + by apply Forall_delete.
    + by rewrite rejections_app, Hseen, answered_no_rejection.
Qed.

Lemma steps_caught actions s s' :
  caught s → rejections (seen s) = [] →
  forallb (λ a, negb (is_connect_click a)) actions = true →
  steps s actions = Some s' →
  rejections (seen s') = [].
Proof.
  revert s.
  induction actions as [|a actions IH]; intros s Hs Hseen Hquiet Hsteps;
    simpl in *.
  - apply (inj Some) in Hsteps. by subst s'.
  - apply andb_prop in Hquiet as [Ha Hrest].
    destruct (step s a) as [s1|] eqn:Hstep; [|done].
    destruct (step_caught s a s1 Hs Hseen) as [Hs1 Hseen1];
      [by destruct (is_connect_click a)|done|].
    by apply (IH s1).
Qed.

(** ** How a connect attempt ends *)

(** What a write of the connection flag leaves under each key. *)
Lemma connection_items_lookup userInfo (m : obj) k :
  assign (connection_items userInfo) m !! k
  = if String.eqb k "isConnected" then Some (VBool true)
    else if String.eqb k "userEmail" then
      match userInfo !! "email" with
      | Some v => Some v
      | None => m !! "userEmail"
      end
    else m !! k.
Proof.
  unfold assign, connection_items, literal. rewrite lookup_union.
  destruct (String.eqb_spec k "isConnected") as [->|Hc].
  - destruct (userInfo !! "email"); rewrite lookup_insert_eq;
      by destruct (m !! "isConnected").
  - destruct (String.eqb_spec k "userEmail") as [->|He].
    + destruct (userInfo !! "email").
      * rewrite lookup_insert_ne by done. rewrite lookup_insert_eq.
        by destruct (m !! "userEmail").
      * rewrite lookup_insert_ne by done. rewrite lookup_empty.
        by destruct (m !! "userEmail").
    + destruct (userInfo !! "email");
        rewrite !lookup_insert_ne, lookup_empty by done; by destruct (m !! k).
Qed.

(** An acquired token is in the store when the attempt ends, however it
    ends. *)
Lemma connect_keeps_token env n w :
  ∀ t, acquired (trace (connect env n w)) = Some t →
       store (after (connect env n w)) !! "gmailToken" = Some (VStr t).
Proof.
  more_readers. connect_cases env n; try tab_facts env; simpl; try done.
  all: intros t [= <-].
  all: try (by rewrite assign_token, lookup_insert_eq).
  all: destruct (existsb _ _); simpl in *.
  all: destruct Hend as (-> & _); simpl.
  all: rewrite ?connection_items_lookup; simpl.
  all: by rewrite assign_token, lookup_insert_eq.
Qed.

(** Once [storeToken] is accepted the store holds the flag, the identity
    and the token. *)
Lemma registered_connect_store env n w :
  registered (trace (connect env n w)) = true →
  ∃ t u,
    acquired (trace (connect env n w)) = Some t
    ∧ resolved (trace (connect env n w)) = Some u
    ∧ ∀ k, store (after (connect env n w)) !! k
           = assign (connection_items u) (<["gmailToken" := VStr t]> (store w)) !! k.
Proof.
  more_readers. connect_cases env n; try tab_facts env; simpl; try done.
  all: intros _; exists token, userInfo.
  all: destruct (existsb _ _); simpl in *.
  all: destruct Hend as (-> & _); simpl.
  all: split; [reflexivity|].
  all: split; [reflexivity|].
  all: intros k.
  all: rewrite !connection_items_lookup, assign_token.
  all: destruct (String.eqb k "isConnected"); [done|].
  all: destruct (String.eqb k "userEmail"); simpl; [|done].
  all: by destruct (userInfo !! "email").
Qed.

Lemma succeeded_registered env n w :
  handshake_succeeded (trace (connect env n w)) = true →
  registered (trace (connect env n w)) = true.
Proof.
  more_readers. connect_cases env n; try tab_facts env; simpl; try done.
Qed.

(** X2: when a connect attempt got as far as the handshake and no
    handshake call succeeded, it made three calls, logged one error and
    still scheduled the focus of the tab, and the page ends with the error
    caption on a connect button that is enabled but hidden, next to the
    logout button: the only click the page then takes is a logout. *)
Theorem refused_handshake_hides_connect_button env n w :
  0 < length (requests_to connect_url (trace (connect env n w))) →
  handshake_succeeded (trace (connect env n w)) = false →
  let f := connect env n w in
  ui (after f) = error_page connected_page
  ∧ clickable ConnectButton (ui (after f)) = false
  ∧ clickable LogoutButton (ui (after f)) = true
  ∧ length (requests_to connect_url (trace f)) = 3
  ∧ length (errors_logged (trace f)) = 1
  ∧ length (focus_scheduled (trace f)) = 1.
Proof.
  unfold errors_logged. more_readers.
  connect_cases env n; try tab_facts env; simpl; try lia.
  all: intros _ Hno; rewrite Hno in Hend.
  all: destruct Hend as (-> & _ & H3 & Herr); simpl.
  all: rewrite Hf; simpl. 
  all: split_and!; try done; lia.
Qed.

Lemma refused_handshake_hides_connect_button_witness :
  0 < length (requests_to connect_url (trace (connect handshake_down 0 empty_world)))
  ∧ handshake_succeeded (trace (connect handshake_down 0 empty_world)) = false
  ∧ let f := connect handshake_down 0 empty_world in
    ui (after f) = error_page connected_page
    ∧ clickable ConnectButton (ui (after f)) = false
    ∧ clickable LogoutButton (ui (after f)) = true
    ∧ length (requests_to connect_url (trace f)) = 3
    ∧ length (errors_logged (trace f)) = 1
    ∧ length (focus_scheduled (trace f)) = 1.
Proof.
  split; [vm_compute; lia|].
  split; [vm_compute; reflexivity|].
  apply (refused_handshake_hides_connect_button handshake_down 0 empty_world);
    [vm_compute; lia|vm_compute; reflexivity].
Defined.

(** X3: when a handshake call of a connect attempt succeeds, a token was
    acquired, the identity endpoint answered and storeToken was accepted,
    and the store ends with [isConnected] true, the acquired token under
    [gmailToken] and the email of the identity answer under [userEmail]
    (the old [userEmail] stays when the answer names none); the attempt
    made exactly three writes, the token alone and then the connection
    flag with the identity twice, logged no error, and shows the connected
    page. *)
Theorem successful_connect_commits_session env n w :
  handshake_succeeded (trace (connect env n w)) = true →
  let f := connect env n w in
  ∃ token userInfo,
    acquired (trace f) = Some token
    ∧ resolved (trace f) = Some userInfo
    ∧ registered (trace f) = true
    ∧ store (after f) !! "isConnected" = Some (VBool true)
    ∧ store (after f) !! "gmailToken" = Some (VStr token)
    ∧ store (after f) !! "userEmail"
      = match userInfo !! "email" with
        | Some v => Some v
        | None => store w !! "userEmail"
        end
    ∧ writes (trace f)
      = [literal [("gmailToken", Some (VStr token))];
         connection_items userInfo; connection_items userInfo]
    ∧ errors_logged (trace f) = []
    ∧ ui (after f) = connected_page.
Proof.
  unfold errors_logged. more_readers.
  connect_cases env n; try tab_facts env; simpl; try done.
  all: intros Hok; rewrite Hok in Hend.
  all: destruct Hend as (-> & -> & ->); simpl.
  all: exists token, userInfo.
  all: rewrite !connection_items_lookup; simpl.
  all: rewrite assign_token, ?lookup_insert_eq, ?lookup_insert_ne by done.
  all: split_and!; try done.
  all: by destruct (userInfo !! "email").
Qed.

Lemma successful_connect_commits_session_witness :
  handshake_succeeded (trace (connect second_try 0 empty_world)) = true
  ∧ let f := connect second_try 0 empty_world in
    ∃ token userInfo,
      acquired (trace f) = Some token
      ∧ resolved (trace f) = Some userInfo
      ∧ registered (trace f) = true
      ∧ store (after f) !! "isConnected" = Some (VBool true)
      ∧ store (after f) !! "gmailToken" = Some (VStr token)
      ∧ store (after f) !! "userEmail"
        = match userInfo !! "email" with
          | Some v => Some v
          | None => store empty_world !! "userEmail"
          end
      ∧ writes (trace f)
        = [literal [("gmailToken", Some (VStr token))];
           connection_items userInfo; connection_items userInfo]
      ∧ errors_logged (trace f) = []
      ∧ ui (after f) = connected_page.
Proof.
  split; [vm_compute; reflexivity|].
  apply (successful_connect_commits_session second_try 0 empty_world).
  vm_compute; reflexivity.
Defined.

(** X4: the Gmail tab is opened only once storeToken has been accepted,
    and then exactly once, active and on [https://mail.google.com];
    handshake calls are made (one to three of them) only in such an
    attempt, and they are answered after the tab was created; the focus
    of the tab is scheduled, for 1500 ms later, after the last handshake
    answer, whether the handshake succeeded or not. *)
Theorem tab_opens_after_registration env n w :
  let tr := trace (connect env n w) in
  tabs_opened tr
  = (if registered tr then [("https://mail.google.com", true)] else [])
  ∧ focus_scheduled tr = map (λ tab, (tab, 1500)) (tabs_created tr)
  ∧ length (tabs_created tr) = length (tabs_opened tr)
  ∧ (if registered tr then 1 ≤ length (requests_to connect_url tr) ≤ 3
     else requests_to connect_url tr = [])
  ∧ story tab_milestone tr
    = match acquired tr, resolved tr, results_from store_token_url tr with
      | Some token, Some userInfo, r :: _ =>
          EvFetchResult (store_token_request (userInfo !! "email") token) r
          :: (if accepted r then
                EvTabsCreate "https://mail.google.com" true
                :: match tabs_created tr with
                   | tab :: _ =>
                       EvTabCreated tab
                       :: map (EvFetchResult
                                 (connect_request (userInfo !! "email") token))
                            (results_from connect_url tr)
                       ++ [EvTabFocusScheduled tab 1500]
                   | [] => []
                   end
              else [])
      | _, _, _ => []
      end.
Proof.
  cbv zeta. unfold story. more_readers.
  connect_cases env n; try tab_facts env; simpl; try done.
  all: tab_story_facts env; tab_readers env; simpl.
  all: rewrite Ho, Hc, Hf, Hts, ?Hrs; simpl; split_and!; try done; lia.
Qed.

(** X5: when [getAuthToken] gives no token (the user refuses the prompt,
    [chrome.runtime.lastError] is set), the attempt ends right after that
    one call: the store is untouched, no request is sent, nothing is
    written, no tab is opened, one error is logged and the page shows the
    error caption on the enabled connect button. *)
Theorem refused_prompt_changes_nothing env n w :
  acquired (trace (connect env n w)) = None →
  let f := connect env n w in
  store (after f) = store w
  ∧ ui (after f) = error_page (ui w)
  ∧ requests (trace f) = [] ∧ writes (trace f) = [] ∧ tabs_opened (trace f) = []
  ∧ length (errors_logged (trace f)) = 1
  ∧ asked f = S n.
Proof.
  unfold errors_logged. more_readers.
  connect_cases env n; try tab_facts env; simpl; try done.
Qed.

Lemma refused_prompt_changes_nothing_witness :
  acquired (trace (connect prompt_refused 0 empty_world)) = None
  ∧ let f := connect prompt_refused 0 empty_world in
    store (after f) = store empty_world
    ∧ ui (after f) = error_page (ui empty_world)
    ∧ requests (trace f) = [] ∧ writes (trace f) = [] ∧ tabs_opened (trace f) = []
    ∧ length (errors_logged (trace f)) = 1
    ∧ asked f = 1.
Proof.
  split; [vm_compute; reflexivity|].
  apply (refused_prompt_changes_nothing prompt_refused 0 empty_world).
  vm_compute; reflexivity.
Defined.

(** ** How a logout ends *)

(** The two ways a logout goes. *)
Lemma disconnect_cases env n w :
  let f := disconnect env n w in
  if truthy (store w !! "userEmail") then
    store (after f) = remove_keys session_keys (store w)
    ∧ revocations (trace f) = [store w !! "gmailToken"]
    ∧ removals (trace f) = [session_keys]
    ∧ if provider_threw (trace f)
      then ui (after f) = ui w ∧ requests (trace f) = []
      else ui (after f) = disconnected_page
           ∧ requests (trace f) = [logout_request (store w !! "userEmail")]
  else
    after f = w
    ∧ trace f = [EvStorageGet ["userEmail"; "gmailToken"];
                 EvConsole LevelError [ArgStr "No user email found in storage"]].
Proof.
  unfold disconnect, logout_click. more_readers. simpl.
  rewrite !pick_lookup by set_solver.
  destruct (truthy (store w !! "userEmail")); simpl; [|done].
  destruct (env (S (S n)) _ _) as [|why|why]; simpl; [| |done].
  all: by destruct (env (S (S (S n))) _ _) as [why'|[[] [why'|o]]].
Qed.

(** X6: a logout that finds an identity asks the provider once to forget
    the stored token; when that call comes back (with or without
    [lastError]) the page is reset to the connect button and exactly one
    request is sent, the logout notification with the stored email; when
    the call throws, the page is left as it was (still showing the logout
    button, although the store is already cleared) and the backend is
    never notified. *)
Theorem logout_resets_page_unless_provider_throws env n w :
  truthy (store w !! "userEmail") = true →
  let f := disconnect env n w in
  revocations (trace f) = [store w !! "gmailToken"]
  ∧ if provider_threw (trace f)
    then ui (after f) = ui w ∧ requests (trace f) = []
    else ui (after f) = disconnected_page
         ∧ requests (trace f) = [logout_request (store w !! "userEmail")].
Proof.
  intros Hyes f. pose proof (disconnect_cases env n w) as Hf. cbv zeta in Hf.
  rewrite Hyes in Hf. by destruct Hf as (_ & Hrev & _ & Hpage).
Qed.

Lemma logout_resets_page_unless_provider_throws_witness :
  truthy (store connected_world !! "userEmail") = true
  ∧ let f := disconnect revoke_throws 0 connected_world in
    revocations (trace f) = [store connected_world !! "gmailToken"]
    ∧ if provider_threw (trace f)
      then ui (after f) = ui connected_world ∧ requests (trace f) = []
      else ui (after f) = disconnected_page
           ∧ requests (trace f)
             = [logout_request (store connected_world !! "userEmail")].
Proof.
  split; [vm_compute; reflexivity|].
  apply (logout_resets_page_unless_provider_throws revoke_throws 0 connected_world).
  vm_compute; reflexivity.
Defined.

(** X7: logout is idempotent: whatever the first logout found and however
    it was answered, a logout that follows it finds no identity, so it
    only reads the store and logs that no user email was found: no
    removal, no call to the provider, no request, and the world stays as
    the first logout left it. *)
Theorem second_logout_does_nothing env env' n n' w :
  let f := disconnect env n w in
  let g := disconnect env' n' (after f) in
  after g = after f
  ∧ trace g = [EvStorageGet ["userEmail"; "gmailToken"];
               EvConsole LevelError [ArgStr "No user email found in storage"]]
  ∧ result g = Returned tt.
Proof.
  intros f g.
  assert (Hno : truthy (store (after f) !! "userEmail") = false).
  { pose proof (disconnect_cases env n w) as Hf. cbv zeta in Hf. fold f in Hf.
    destruct (truthy (store w !! "userEmail")) eqn:Hw.
    - destruct Hf as (-> & _). rewrite remove_session_keys.
      rewrite bool_decide_eq_true_2; [done|]. unfold session_keys. set_solver.
    - destruct Hf as (-> & _). done. }
  subst g. generalize dependent (after f). clear f. intros w1 Hno.
  unfold disconnect, logout_click. simpl.
  rewrite pick_lookup by set_solver. by rewrite Hno.
Qed.

(** X8: a connect attempt never talks to the logout endpoint and never
    asks the provider to forget a token; a logout never prompts for a
    token, opens no tab, and sends requests to the logout endpoint
    only. *)
Theorem handlers_keep_to_their_endpoints env n w :
  (let tr := trace (connect env n w) in
   requests_to logout_url tr = [] ∧ revocations tr = [])
  ∧ (let tr := trace (disconnect env n w) in
     token_prompts tr = 0 ∧ tabs_opened tr = []
     ∧ Forall (λ req, url req = logout_url) (requests tr)).
Proof.
  split.
  - more_readers. connect_cases env n; try tab_facts env; simpl; try done.
  - cbv zeta. unfold disconnect, logout_click. more_readers. simpl.
    destruct (truthy _); simpl; [|done].
    destruct (env (S (S n)) _ _) as [|why|why]; simpl; [| |done].
    all: destruct (env (S (S (S n))) _ _) as [why'|[[] [why'|o]]]; simpl.
    all: split_and!; try done; by repeat constructor.
Qed.

(** ** A connect attempt and the logout after it *)

(** X9: a logout after a connect attempt that left a usable [userEmail]
    undoes the attempt: the three session keys are gone and every other
    key holds what it held before the attempt, so a store that had none of
    the three keys is back to what it was; and the token the provider is
    asked to forget is the token the attempt acquired. *)
Theorem connect_then_logout_round_trip env env' n n' w :
  truthy (store (after (connect env n w)) !! "userEmail") = true →
  let f := connect env n w in
  let g := disconnect env' n' (after f) in
  (∀ k, store (after g) !! k
        = if bool_decide (k ∈ session_keys) then None else store w !! k)
  ∧ (session_flags (store w) = (None, None, None) → store (after g) = store w)
  ∧ (∀ token, acquired (trace f) = Some token →
              revocations (trace g) = [Some (VStr token)]).
Proof.
  intros Hyes f g.
  pose proof (disconnect_cases env' n' (after f)) as Hg. cbv zeta in Hg.
  fold g in Hg. fold f in Hyes. rewrite Hyes in Hg.
  destruct Hg as (Hstore & Hrev & _).
  pose proof (run_session_only env connect_click n w connect_click_session_only)
    as Hframe. fold (connect env n w) in Hframe. fold f in Hframe.
  assert (Hkeys : ∀ k, store (after g) !! k
                       = if bool_decide (k ∈ session_keys) then None
                         else store w !! k).
  { intros k. rewrite Hstore, remove_session_keys.
    case_bool_decide as Hk; [done|]. by apply Hframe. }
  split_and!; [done| |].
  - unfold session_flags. intros [= Hc He Ht]. apply map_eq. intros k.
    rewrite Hkeys. case_bool_decide as Hk; [|done].
    unfold session_keys in Hk. in_cases Hk; by subst k.
  - intros token Htoken. rewrite Hrev. unfold f.
    by rewrite (connect_keeps_token env n w token Htoken).
Qed.

Lemma connect_then_logout_round_trip_witness :
  truthy (store (after (connect (λ _, all_well) 0 empty_world)) !! "userEmail") = true
  ∧ let f := connect (λ _, all_well) 0 empty_world in
    let g := disconnect (λ _, all_well) 0 (after f) in
    (∀ k, store (after g) !! k
          = if bool_decide (k ∈ session_keys) then None else store empty_world !! k)
    ∧ (session_flags (store empty_world) = (None, None, None) →
       store (after g) = store empty_world)
    ∧ (∀ token, acquired (trace f) = Some token →
                revocations (trace g) = [Some (VStr token)]).
Proof.
  split; [vm_compute; reflexivity|].
  apply (connect_then_logout_round_trip (λ _, all_well) (λ _, all_well) 0 0 empty_world).
  vm_compute; reflexivity.
Defined.

(** X10: when storeToken is accepted although the identity endpoint named
    no usable email (none, or an empty one) and the store held none
    before, the attempt leaves [isConnected] true without a usable
    [userEmail], and the logout that follows refuses to run: it changes
    nothing, asks the provider nothing and sends nothing, so the session
    stays marked as connected. *)
Theorem session_without_email_cannot_log_out env env' n n' w :
  registered (trace (connect env n w)) = true →
  identified (trace (connect env n w)) = false →
  truthy (store w !! "userEmail") = false →
  let f := connect env n w in
  let g := disconnect env' n' (after f) in
  store (after f) !! "isConnected" = Some (VBool true)
  ∧ after g = after f
  ∧ requests (trace g) = [] ∧ revocations (trace g) = [] ∧ removals (trace g) = [].
Proof.
  intros Hreg Hid Hold f g.
  destruct (registered_connect_store env n w Hreg) as (t & u & _ & Hu & Hstore).
  fold f in Hstore. unfold identified in Hid. rewrite Hu in Hid.
  assert (Hno : truthy (store (after f) !! "userEmail") = false).
  { rewrite Hstore, connection_items_lookup. simpl.
    destruct (u !! "email"); [done|]. by rewrite lookup_insert_ne. }
  split; [by rewrite Hstore, connection_items_lookup|].
  pose proof (disconnect_cases env' n' (after f)) as Hg. cbv zeta in Hg.
  fold g in Hg. rewrite Hno in Hg. destruct Hg as [Hw Htr].
  rewrite Htr. by split_and!.
Qed.

Lemma session_without_email_cannot_log_out_witness :
  registered (trace (connect anonymous 0 empty_world)) = true
  ∧ identified (trace (connect anonymous 0 empty_world)) = false
  ∧ truthy (store empty_world !! "userEmail") = false
  ∧ let f := connect anonymous 0 empty_world in
    let g := disconnect anonymous 0 (after f) in
    store (after f) !! "isConnected" = Some (VBool true)
    ∧ after g = after f
    ∧ requests (trace g) = [] ∧ revocations (trace g) = [] ∧ removals (trace g) = [].
Proof.
  split; [vm_compute; reflexivity|].
  split; [vm_compute; reflexivity|].
  split; [vm_compute; reflexivity|].
  apply (session_without_email_cannot_log_out anonymous anonymous 0 0 empty_world);
    vm_compute; reflexivity.
Defined.

(** ** The popup when it opens *)

Lemma popup_opened_run env n w :
  let f := run env n popup_opened w in
  store (after f) = store w
  ∧ ui (after f)
    = (if truthy (store w !! "isConnected") then connected_page
       else logout_hidden (ui w))
  ∧ trace f
    = [EvStorageGet ["isConnected"; "userEmail"];
       EvConsole LevelLog
         [ArgStr "Initial connection check:";
          ArgObj (pick ["isConnected"; "userEmail"] (store w))]]
  ∧ result f = Returned tt.
Proof.
  unfold popup_opened. simpl. rewrite pick_lookup by set_solver.
  by destruct (truthy (store w !! "isConnected")).
Qed.

(** X11: when the popup opens it only reads the store: it shows the
    connected page exactly when the stored [isConnected] is truthy,
    whatever [userEmail] and [gmailToken] hold, and otherwise leaves the
    page as it is with the logout button hidden; it writes and removes
    nothing, sends no request and asks for no token. *)
Theorem popup_shows_stored_flag env n w :
  let f := run env n popup_opened w in
  after f = {| store := store w;
               ui := if truthy (store w !! "isConnected") then connected_page
                     else logout_hidden (ui w) |}
  ∧ writes (trace f) = [] ∧ removals (trace f) = [] ∧ requests (trace f) = []
  ∧ token_prompts (trace f) = 0
  ∧ result f = Returned tt.
Proof.
  intros f. destruct (popup_opened_run env n w) as (Hs & Hu & Htr & Hres).
  fold f in Hs, Hu, Htr, Hres. rewrite Htr.
  split_and!; try done. destruct (after f) as [m u]. simpl in *. by subst.
Qed.

(** X12: the popup that is opened again follows the session: after a
    connect attempt whose handshake succeeded it shows the connected page,
    and after a logout that found an identity it shows the fresh page,
    with the connect button and without the logout button. *)
Theorem reopened_popup_follows_the_session env env' env'' n n' n'' w :
  let f := connect env n w in
  let g := disconnect env' n' (after f) in
  (handshake_succeeded (trace f) = true →
   ui (after (reopened env'' n'' fresh_page (after f))) = connected_page)
  ∧ (truthy (store (after f) !! "userEmail") = true →
     ui (after (reopened env'' n'' fresh_page (after g))) = fresh_page).
Proof.
  intros f g. unfold reopened. split.
  - intros Hok.
    destruct (registered_connect_store env n w (succeeded_registered env n w Hok))
      as (t & u & _ & _ & Hstore).
    destruct (popup_opened_run env'' n'' {| store := store (after f); ui := fresh_page |})
      as (_ & -> & _). cbn [store ui]. unfold f.
    by rewrite Hstore, connection_items_lookup.
  - intros Hyes.
    pose proof (disconnect_cases env' n' (after f)) as Hg. cbv zeta in Hg.
    fold g in Hg. rewrite Hyes in Hg. destruct Hg as (Hstore & _).
    destruct (popup_opened_run env'' n'' {| store := store (after g); ui := fresh_page |})
      as (_ & -> & _). cbn [store ui]. rewrite Hstore, remove_session_keys.
    rewrite bool_decide_eq_true_2; [done|]. unfold session_keys. set_solver.
Qed.

(** ** The API module *)

(** X13: [verifyEmail] sends one POST to the verify-email endpoint with
    the email as its JSON body and leaves page and store alone; it returns
    the parsed body of the answer whatever the status of the answer (the
    status is not looked at); when the request is rejected or the body
    does not parse, the error is logged once with [Error verifying email:]
    and thrown again unchanged. *)
Theorem verifyEmail_returns_any_body env email n w :
  let f := run env n (verifyEmail email) w in
  after f = w
  ∧ requests (trace f) = [verify_email_request email]
  ∧ match env n _ (Fetch (verify_email_request email)) with
    | Resolved {| ok := _; payload := JsonOk o |} =>
        result f = Returned o ∧ errors_logged (trace f) = []
    | Resolved {| ok := _; payload := JsonBad why |} | NetworkError why =>
        result f = Thrown (Error why)
        ∧ errors_logged (trace f)
          = [[ArgStr "Error verifying email:"; ArgErr (Error why)]]
    end.
Proof.
  unfold verifyEmail, errors_logged. more_readers. simpl.
  by destruct (env n _ _) as [why|[success [why|o]]].
Qed.

(** ** Every schedule of the page *)

(** X14: the storage requests of the two handlers stay within the three
    session keys: whatever the answers and however clicks and answers
    interleave, every other key of the store holds what it held when the
    popup opened. *)
Theorem other_keys_are_never_touched w actions s k :
  steps (idle w) actions = Some s →
  k ∉ session_keys →
  store (now s) !! k = store w !! k.
Proof.
  intros Hsteps Hk.
  by apply (steps_session_only actions (idle w) s); [constructor| |].
Qed.

Lemma other_keys_are_never_touched_witness :
  steps (idle verified_world) full_logout = Some logged_out
  ∧ ("verifiedEmail" ∉ session_keys)
  ∧ pending logged_out = []
  ∧ removals (seen logged_out) = [session_keys]
  ∧ length (requests_to logout_url (seen logged_out)) = 1
  ∧ session_flags (store verified_world)
    = (Some (VBool true), Some (VStr "user@example.com"), Some (VStr "tok_abc"))
  ∧ session_flags (store (now logged_out)) = (None, None, None)
  ∧ store verified_world !! "verifiedEmail" = Some (VStr "user@example.com")
  ∧ store (now logged_out) !! "verifiedEmail"
    = store verified_world !! "verifiedEmail".
Proof.
  split; [vm_compute; reflexivity|].
  split; [intros Hin; by in_cases Hin|].
  split; [vm_compute; reflexivity|].
  split; [vm_compute; reflexivity|].
  split; [vm_compute; reflexivity|].
  split; [vm_compute; reflexivity|].
  split; [vm_compute; reflexivity|].
  split; [vm_compute; reflexivity|].
  apply (other_keys_are_never_touched verified_world full_logout);
    [vm_compute; reflexivity|intros Hin; by in_cases Hin].
Defined.

(** X15: a logout never ends in an unhandled rejection: the whole body of
    the logout listener stands in its [try], and the callback of the
    provider call has a [catch] of its own around the notification, so in
    every schedule of logout clicks and answers, also when the provider
    call throws, no handler is rejected. *)
Theorem logout_never_rejects w actions s :
  forallb (λ a, negb (is_connect_click a)) actions = true →
  steps (idle w) actions = Some s →
  rejections (seen s) = []
  ∧ ∀ userEmail, catches (on_token_removed userEmail).
Proof.
  intros Hquiet Hsteps. split.
  - by apply (steps_caught actions (idle w) s); [constructor| | |].
  - apply on_token_removed_catches.
Qed.

Lemma logout_never_rejects_witness :
  forallb (λ a, negb (is_connect_click a)) refused_logout = true
  ∧ steps (idle connected_world) refused_logout = Some after_refused_logout
  ∧ pending after_refused_logout = []
  ∧ provider_threw (seen after_refused_logout) = true
  ∧ errors_logged (seen after_refused_logout)
    = [[ArgStr "Logout failed:"; ArgErr (Error "Invalid token")]]
  ∧ rejections (seen after_refused_logout) = []
  ∧ ∀ userEmail, catches (on_token_removed userEmail).
Proof.
  split; [vm_compute; reflexivity|].
  split; [vm_compute; reflexivity|].
  split; [vm_compute; reflexivity|].
  split; [vm_compute; reflexivity|].
  split; [vm_compute; reflexivity|].
  apply (logout_never_rejects connected_world refused_logout);
    vm_compute; reflexivity.
Defined.
